(** * Sage: the [/calendar] command (retrieval, filtering and paging)

    A shallow embedding of [src/commands/general/reminder.ts] (the calendar
    command that follows the reminder command in that file), and the
    properties of its validation, normalisation, filter and pager.

    Conventions of the model.
    - A JavaScript string is a [string] of 8-bit characters; the case
      mappings and the white-space class are those of the ASCII range, every
      other character is left alone.
    - [undefined] / [null] is [None]; a property that may be absent has an
      option type.
    - A thrown exception is the left injection of a sum.
    - Calls on the outside world (database, provider, chat client, files) are
      recorded, in order, in a trace of [Effect]s; what the world answers is
      read from a [World] record.
    - [Date] parsing and formatting belong to the host: they are the two
      operations of the [Host] class. *)

From Stdlib Require Import ZArith Ascii String List Bool Lia DecimalString.
From Stdlib Require DecimalPos DecimalZ.
From stdpp Require Import base option list strings gmap.

Local Open Scope string_scope.
Local Open Scope Z_scope.
Local Open Scope list_scope.

(** ** JavaScript primitives used by the command *)

Module JS.

(** [String.prototype.toLowerCase] / [toUpperCase], ASCII range. *)
Definition isUpperAZ (c : ascii) : bool :=
  let n := N_of_ascii c in (65 <=? n)%N && (n <=? 90)%N.

Definition isLowerAZ (c : ascii) : bool :=
  let n := N_of_ascii c in (97 <=? n)%N && (n <=? 122)%N.

Definition lowerChar (c : ascii) : ascii :=
  if isUpperAZ c then ascii_of_N (N_of_ascii c + 32) else c.

Definition upperChar (c : ascii) : ascii :=
  if isLowerAZ c then ascii_of_N (N_of_ascii c - 32) else c.

Fixpoint toLowerCase (s : string) : string :=
  match s with
  | EmptyString => EmptyString
  | String c s' => String (lowerChar c) (toLowerCase s')
  end.

Fixpoint toUpperCase (s : string) : string :=
  match s with
  | EmptyString => EmptyString
  | String c s' => String (upperChar c) (toUpperCase s')
  end.

(** [\d] of a regular expression. *)
Definition isDigit (c : ascii) : bool :=
  let n := N_of_ascii c in (48 <=? n)%N && (n <=? 57)%N.

(** White space and line terminators removed by [String.prototype.trim]:
    TAB, LF, VT, FF, CR and SPACE. *)
Definition isWhite (c : ascii) : bool :=
  let n := N_of_ascii c in ((9 <=? n)%N && (n <=? 13)%N) || (n =? 32)%N.

Fixpoint trimStart (s : string) : string :=
  match s with
  | EmptyString => EmptyString
  | String c s' => if isWhite c then trimStart s' else s
  end.

Fixpoint trimEnd (s : string) : string :=
  match s with
  | EmptyString => EmptyString
  | String c s' =>
      match trimEnd s' with
      | EmptyString => if isWhite c then EmptyString else String c EmptyString
      | t => String c t
      end
  end.

Definition trim (s : string) : string := trimEnd (trimStart s).

(** [s.startsWith(p)]. *)
Fixpoint startsWith (p s : string) : bool :=
  match p, s with
  | EmptyString, _ => true
  | String _ _, EmptyString => false
  | String a p', String b s' => if Ascii.eqb a b then startsWith p' s' else false
  end.

(** [s.includes(needle)]: [needle] occurs somewhere in [s]. *)
Fixpoint includes (needle s : string) : bool :=
  startsWith needle s ||
  match s with
  | EmptyString => false
  | String _ s' => includes needle s'
  end.

(** [s.split(sep)] for a one-character separator: never the empty array,
    [''.split('-')] is [['']]. *)
Fixpoint split (sep : ascii) (s : string) : list string :=
  match s with
  | EmptyString => [EmptyString]
  | String c s' =>
      if Ascii.eqb c sep then EmptyString :: split sep s'
      else match split sep s' with
           | h :: t => String c h :: t
           | [] => [String c EmptyString]
           end
  end.

(** The remainder of [s] after the prefix [p], when [s] starts with [p]. *)
Fixpoint stripPrefix (p s : string) : option string :=
  match p, s with
  | EmptyString, _ => Some s
  | String _ _, EmptyString => None
  | String a p', String b s' => if Ascii.eqb a b then stripPrefix p' s' else None
  end.

(** Truthiness of a string, [a || b] on strings that may be absent, and
    [x || ''] . *)
Definition nonEmpty (s : string) : bool :=
  match s with EmptyString => false | String _ _ => true end.

Definition orElse (a b : option string) : option string :=
  match a with
  | Some s => if nonEmpty s then a else b
  | None => b
  end.

Definition orEmpty (a : option string) : string := default EmptyString a.

(** The values a [match...] variable of the filter callback can hold:
    [x && e] is [x] itself when [x] is falsy. *)
Inductive value : Type :=
| VUndefined
| VStr (s : string)
| VBool (b : bool).

Definition truthy (v : value) : bool :=
  match v with
  | VUndefined => false
  | VStr s => nonEmpty s
  | VBool b => b
  end.

Definition and (a b : value) : value := if truthy a then b else a.

(** [s && p(s)] for a string [s] that may be absent. *)
Definition guard (s : option string) (p : string -> bool) : value :=
  match s with
  | None => VUndefined
  | Some s' => if nonEmpty s' then VBool (p s') else VStr s'
  end.

(** [Array.prototype.slice(start, end)], with the relative indices of the
    language: a negative index counts from the end, everything is clamped
    to the array. *)
Definition relIndex (len i : Z) : Z :=
  if i <? 0 then Z.max (len + i) 0 else Z.min i len.

Definition slice {A : Type} (l : list A) (s e : Z) : list A :=
  let len := Z.of_nat (length l) in
  let from := relIndex len s in
  let to := relIndex len e in
  take (Z.to_nat (to - from)) (drop (Z.to_nat from) l).

(** [Math.ceil(n / d)] on a length [n] and a positive integer [d]; exact on
    array lengths, where the quotient of doubles cannot round to an
    integer. *)
Definition ceilDiv (n d : Z) : Z := (n + d - 1) / d.

(** An integer inside a template literal. *)
Definition showZ (z : Z) : string := NilZero.string_of_int (Z.to_int z).

(** Exceptions. *)
Inductive exn : Type :=
| TypeError (what : string)
| Rejected (what : string)
| ValidationError (what : string).

Definition result (A : Type) : Type := exn + A.

Definition rbind {A B : Type} (r : result A) (k : A -> result B) : result B :=
  match r with
  | inl e => inl e
  | inr a => k a
  end.

(** [Array.prototype.filter]: the callback is called on each element in
    order, the first exception ends the call. *)
Fixpoint filterR {A : Type} (p : A -> result bool) (l : list A) : result (list A) :=
  match l with
  | [] => inr []
  | x :: l' =>
      rbind (p x) (fun keep =>
      rbind (filterR p l') (fun r =>
      inr (if keep then x :: r else r)))
  end.

(** [Array.prototype.map] with the index as second argument. *)
Fixpoint mapiR {A B : Type} (f : A -> nat -> result B) (i : nat) (l : list A)
  : result (list B) :=
  match l with
  | [] => inr []
  | x :: l' =>
      rbind (f x i) (fun y =>
      rbind (mapiR f (S i) l') (fun r => inr (y :: r)))
  end.

End JS.

Import JS.

(** ** Data model *)

(** The provider's record of an event ([res.data.items]).  [start] and [end]
    hold a date-time value, or a date only for an all-day event; the summary
    is absent when the event has no title. *)
Module Raw.

Record time : Type := {
  dateTime : option string;
  date : option string;
}.

Record event : Type := {
  id : string;
  summary : option string;
  start : option time;
  end_ : option time;
  location : option string;
}.

End Raw.

(** [interface Event]: the document stored for an event. *)
Record Event : Type := {
  eventId : string;
  courseID : string;
  instructor : string;
  date : string;
  start : string;
  end_ : string;
  location : string;
  locationType : string;
}.

(** What [interaction.options.getString] returns for the five options:
    [None] when the option was not supplied. *)
Record Options : Type := {
  classname : option string;
  locationtype : option string;
  eventholder : option string;
  eventdate : option string;
  dayofweek : option string;
}.

(** The five constants [run] computes from the options; the closures of
    [listEvents] read them. *)
Module Arg.

Record t : Type := {
  className : string;
  locationType : string;
  eventHolder : string;
  eventDate : string;
  dayOfWeek : string;
}.

Definition ofOptions (o : Options) : t :=
  {| className := orEmpty (classname o);
     locationType := orEmpty (toUpperCase <$> locationtype o);
     eventHolder := orEmpty (eventholder o);
     eventDate := orEmpty (eventdate o);
     dayOfWeek := orEmpty (toLowerCase <$> dayofweek o) |}.

End Arg.

(** The host's [Date]: [toLocaleString s] is
    [new Date(s).toLocaleString('en-US', {month: 'long', day: 'numeric',
    hour: '2-digit', minute: '2-digit', timeZoneName: 'short'})] and
    [getDay s] is [new Date(s).getDay()], [None] standing for [NaN].  Neither
    throws. *)
Class Host : Type := {
  toLocaleString : string -> string;
  getDay : string -> option Z;
}.

(** ** Validation of the options *)

(** [/^cisc\d{3}$/i] *)
Definition classNameRegex (s : string) : bool :=
  match stripPrefix "cisc" (toLowerCase s) with
  | Some (String a (String b (String c EmptyString))) =>
      isDigit a && isDigit b && isDigit c
  | _ => false
  end.

Definition monthNames : list string :=
  ["january"; "february"; "march"; "april"; "may"; "june"; "july";
   "august"; "september"; "october"; "november"; "december"].

(** [\d{1,2}$] *)
Definition oneOrTwoDigits (s : string) : bool :=
  match s with
  | String a EmptyString => isDigit a
  | String a (String b EmptyString) => isDigit a && isDigit b
  | _ => false
  end.

(** [/^(?:january|...|december) (\d{1,2})$/]: some alternative, then one
    space, then one or two digits, then the end of the input. *)
Definition dateRegex (s : string) : bool :=
  existsb (fun m =>
    match stripPrefix (m +:+ " ") s with
    | Some rest => oneOrTwoDigits rest
    | None => false
    end) monthNames.

(** The double quote, for the messages that quote a word. *)
Definition dq : string := String (ascii_of_nat 34) EmptyString.

Definition invalidClassName : string :=
  "Invalid class name format. Please enter a class name starting with "
  +:+ dq +:+ "cisc" +:+ dq
  +:+ " followed by exactly three digits (e.g., " +:+ dq +:+ "cisc123" +:+ dq +:+ ").".

Definition invalidLocationType : string :=
  "Invalid location type. Please enter " +:+ dq +:+ "IP" +:+ dq
  +:+ " for In-Person or " +:+ dq +:+ "V" +:+ dq +:+ " for Virtual events.".

Definition invalidDate : string :=
  "Invalid date format. Please enter a date starting with "
  +:+ dq +:+ "month" +:+ dq
  +:+ " followed by 1-2 digits (e.g., " +:+ dq +:+ "december 9" +:+ dq +:+ ").".

(** The three checks of [run], in the order of the source; the result is the
    content of the rejection, if any. *)
Definition validate (a : Arg.t) : option string :=
  if nonEmpty (Arg.className a) && negb (classNameRegex (Arg.className a))
  then Some invalidClassName
  else if nonEmpty (Arg.locationType a)
          && negb (bool_decide (Arg.locationType a ∈ ["IP"; "V"]))
  then Some invalidLocationType
  else if nonEmpty (Arg.eventDate a) && negb (dateRegex (Arg.eventDate a))
  then Some invalidDate
  else None.

(** [daysOfWeekMap], the own properties of the object literal. *)
Definition daysOfWeekMap : gmap string Z :=
  list_to_map
    [("sunday", 0); ("monday", 1); ("tuesday", 2); ("wednesday", 3);
     ("thursday", 4); ("friday", 5); ("saturday", 6)].

(** [daysOfWeekMap[key]]: an own property is a number; the object literal
    inherits from [Object.prototype], whose properties are functions or
    objects; any other key reads [undefined]. *)
Inductive property : Type :=
| PNumber (n : Z)
| PInherited
| PUndefined.

Definition objectPrototypeKeys : list string :=
  ["constructor"; "__proto__"; "hasOwnProperty"; "isPrototypeOf";
   "propertyIsEnumerable"; "toLocaleString"; "toString"; "valueOf";
   "__defineGetter__"; "__defineSetter__"; "__lookupGetter__";
   "__lookupSetter__"].

Definition daysOfWeekMapGet (key : string) : property :=
  match daysOfWeekMap !! key with
  | Some n => PNumber n
  | None =>
      if bool_decide (key ∈ objectPrototypeKeys) then PInherited else PUndefined
  end.

(** [n === p] for a number [n] ([None] is [NaN], equal to nothing). *)
Definition strictEq (n : option Z) (p : property) : bool :=
  match n, p with
  | Some a, PNumber b => a =? b
  | _, _ => false
  end.

(** ** Normalisation and filtering of the fetched events *)

Section Events.

Context {host : Host}.

(** [formatDateTime(dateTime?: string)] *)
Definition formatDateTime (dateTime : option string) : string :=
  match dateTime with
  | None => "`NONE`"
  | Some s => if nonEmpty s then toLocaleString s else "`NONE`"
  end.

(** [event.start?.dateTime || event.start?.date] (and the same on [end]). *)
Definition instant (t : option Raw.time) : option string :=
  orElse (t ≫= Raw.dateTime) (t ≫= Raw.date).

(** The body of the loop that builds [eventData]: [event.summary.split]
    throws when the event has no summary; the optional chains on the parts
    never do. *)
Definition eventData (event : Raw.event) : result Event :=
  match Raw.summary event with
  | None => inl (TypeError "Cannot read properties of undefined (reading 'split')")
  | Some summary =>
      let eventParts := split "-" summary in
      inr {| eventId := Raw.id event;
             courseID := orEmpty (trim <$> eventParts !! 0%nat);
             instructor := orEmpty (trim <$> eventParts !! 1%nat);
             date := formatDateTime (instant (Raw.start event));
             start := orEmpty (instant (Raw.start event));
             end_ := orEmpty (instant (Raw.end_ event));
             location := orEmpty (Raw.location event);
             locationType :=
               match eventParts !! 2%nat with
               | Some part =>
                   if includes "virtual" (toLowerCase (trim part)) then "V" else "IP"
               | None => "IP"
               end |}
  end.

Variable a : Arg.t.

(** The five [match...] variables of the callback given to
    [events.filter]. *)
Definition matchClassName (event : Raw.event) : value :=
  if nonEmpty (Arg.className a)
  then guard (Raw.summary event)
         (fun s => includes (toLowerCase (Arg.className a)) (toLowerCase s))
  else VBool true.

(** [event.start?.dateTime.toLowerCase()]: the chain stops at an absent
    [start]; with [start] present and no [dateTime], [toLowerCase] is read
    from [undefined]. *)
Definition matchEventDate (event : Raw.event) : result value :=
  if nonEmpty (Arg.eventDate a)
  then
    rbind
      match Raw.start event with
      | None => inr None
      | Some t =>
          match Raw.dateTime t with
          | None =>
              inl (TypeError "Cannot read properties of undefined (reading 'toLowerCase')")
          | Some dt => inr (Some (toLowerCase dt))
          end
      end
      (fun arg =>
         let formattedEventDate := formatDateTime arg in
         inr (guard (Some formattedEventDate)
                (fun f => includes (toLowerCase (Arg.eventDate a)) (toLowerCase f))))
  else inr (VBool true).

(** [new Date(x).getDay()]; [new Date(undefined)] is an invalid date. *)
Definition dateGetDay (x : option string) : option Z :=
  x ≫= getDay.

Definition matchDayOfWeek (event : Raw.event) : value :=
  if nonEmpty (Arg.dayOfWeek a)
  then
    let eventDayOfWeek := dateGetDay (instant (Raw.start event)) in
    VBool (strictEq eventDayOfWeek (daysOfWeekMapGet (Arg.dayOfWeek a)))
  else VBool true.

Definition matchLocationType (event : Raw.event) : value :=
  if nonEmpty (Arg.locationType a)
  then
    if String.eqb (Arg.locationType a) "IP"
    then guard (Raw.summary event) (fun s => includes "in person" (toLowerCase s))
    else if String.eqb (Arg.locationType a) "V"
    then guard (Raw.summary event) (fun s => includes "virtual" (toLowerCase s))
    else VBool true
  else VBool true.

Definition matchEventHolder (event : Raw.event) : value :=
  if nonEmpty (Arg.eventHolder a)
  then guard (Raw.summary event)
         (fun s => includes (toLowerCase (Arg.eventHolder a)) (toLowerCase s))
  else VBool true.

(** The callback: the value returned is
    [matchClassName && matchLocationType && matchEventHolder &&
     matchEventDate && matchDayOfWeek], and [filter] keeps the event when it
    is truthy. *)
Definition keepEvent (event : Raw.event) : result bool :=
  let mClassName := matchClassName event in
  rbind (matchEventDate event) (fun mEventDate =>
  let mDayOfWeek := matchDayOfWeek event in
  let mLocationType := matchLocationType event in
  let mEventHolder := matchEventHolder event in
  inr (truthy
         (and (and (and (and mClassName mLocationType) mEventHolder)
                   mEventDate) mDayOfWeek))).

Definition filteredEvents (events : list Raw.event) : result (list Raw.event) :=
  filterR keepEvent events.

End Events.

(** ** The pager and what it renders *)

(** An element of [parsedEvents]; a part of the summary that does not exist
    is [undefined]. *)
Module Parsed.

Record t : Type := {
  name : string;
  eventHolder : option string;
  eventType : option string;
  start : string;
  end_ : string;
  location : string;
}.

End Parsed.

Record Field : Type := {
  fieldName : string;
  fieldValue : string;
}.

Record Embed : Type := {
  color : string;
  title : string;
  fields : list Field;
}.

Inductive ButtonStyle : Type := Primary | Danger.

Record Button : Type := {
  customId : string;
  label : string;
  style : ButtonStyle;
  disabled : bool;
}.

(** The message sent to the user: its embeds and its rows of buttons. *)
Record Message : Type := {
  embeds : list Embed;
  components : list (list Button);
}.

Definition EVENTS_PER_PAGE : Z := 3.

Definition newline : string := String (ascii_of_nat 10) EmptyString.

(** An optional string inside a template literal. *)
Definition interpolate (s : option string) : string := default "undefined" s.

Section Rendering.

Context {host : Host}.

(** One element of [filteredEvents.map((event, index) => ...)]. *)
Definition parseEvent (event : Raw.event) (index : nat) : result Parsed.t :=
  match Raw.summary event with
  | None => inl (TypeError "Cannot read properties of undefined (reading 'split')")
  | Some summary =>
      let parts := split "-" summary in
      inr {| Parsed.name :=
               match parts !! 0%nat with
               | Some p =>
                   if nonEmpty p then p
                   else "Event " +:+ showZ (Z.of_nat index + 1)
               | None => "Event " +:+ showZ (Z.of_nat index + 1)
               end;
             Parsed.eventHolder := parts !! 1%nat;
             Parsed.eventType := parts !! 2%nat;
             Parsed.start := formatDateTime (instant (Raw.start event));
             Parsed.end_ := formatDateTime (instant (Raw.end_ event));
             Parsed.location :=
               match Raw.location event with
               | Some l => if nonEmpty l then l else "`NONE`"
               | None => "`NONE`"
               end |}
  end.

Definition parseEvents (filtered : list Raw.event) : result (list Parsed.t) :=
  mapiR parseEvent 0%nat filtered.

End Rendering.

Section Pager.

Variable a : Arg.t.
Variable parsedEvents : list Parsed.t.

(** [Math.ceil(parsedEvents.length / EVENTS_PER_PAGE)] *)
Definition pageCount : Z :=
  ceilDiv (Z.of_nat (length parsedEvents)) EVENTS_PER_PAGE.

(** [parsedEvents.slice(page * EVENTS_PER_PAGE, (page + 1) * EVENTS_PER_PAGE)] *)
Definition pageOf (page : Z) : list Parsed.t :=
  slice parsedEvents (page * EVENTS_PER_PAGE) ((page + 1) * EVENTS_PER_PAGE).

Definition embedTitle (page : Z) : string :=
  "Upcoming Events "
  +:+ (if nonEmpty (Arg.className a) then "for " +:+ Arg.className a else "")
  +:+ " ("
  +:+ (if nonEmpty (Arg.locationType a)
       then if String.eqb (Arg.locationType a) "IP" then "In-Person" else "Virtual"
       else "")
  +:+ ") (Page " +:+ showZ (page + 1) +:+ " of " +:+ showZ pageCount +:+ ")".

Definition embedField (page : Z) (index : nat) (event : Parsed.t) : Field :=
  {| fieldName :=
       "Event " +:+ showZ (page * EVENTS_PER_PAGE + Z.of_nat index + 1)
       +:+ ": " +:+ Parsed.name event;
     fieldValue :=
       "**Event Holder:** " +:+ interpolate (Parsed.eventHolder event) +:+ newline
       +:+ "**Start:** " +:+ Parsed.start event +:+ newline
       +:+ "**End:** " +:+ Parsed.end_ event +:+ newline
       +:+ "**Location:** " +:+ Parsed.location event +:+ newline
       +:+ "**Event Type:** " +:+ interpolate (Parsed.eventType event)
       +:+ newline +:+ newline |}.

(** What [EmbedBuilder] checks before it takes a value: [setTitle] a title
    of 1 to 256 characters, [addFields] a name of 1 to 256 characters and a
    value of 1 to 1024.  (It also refuses a 26th field; a page has three at
    most.) *)
Definition titleFits (t : string) : bool :=
  (1 <=? String.length t)%nat && (String.length t <=? 256)%nat.

Definition fieldFits (f : Field) : bool :=
  (1 <=? String.length (fieldName f))%nat
  && (String.length (fieldName f) <=? 256)%nat
  && (1 <=? String.length (fieldValue f))%nat
  && (String.length (fieldValue f) <=? 1024)%nat.

(** [embed.addFields(field)], once for each field of the page, in order:
    the fields taken, or the exception of the first one refused. *)
Fixpoint addFields (new : list Field) : result (list Field) :=
  match new with
  | [] => inr []
  | f :: rest =>
      if fieldFits f
      then rbind (addFields rest) (fun taken => inr (f :: taken))
      else inl (ValidationError "Invalid string length")
  end.

(** [generateEmbed(page)] *)
Definition generateEmbed (page : Z) : result Embed :=
  if titleFits (embedTitle page)
  then
    rbind (addFields (imap (embedField page) (pageOf page)))
      (fun taken =>
         inr {| color := "Green"; title := embedTitle page; fields := taken |})
  else inl (ValidationError "Invalid string length").

Definition button (id lbl : string) (st : ButtonStyle) (off : bool) : Button :=
  {| customId := id; label := lbl; style := st; disabled := off |}.

(** The row of buttons built by [updateMessage(page, message)]. *)
Definition pageButtons (page : Z) : list Button :=
  [button "prev" "Previous" Primary (page =? 0);
   button "next" "Next" Primary (page =? pageCount - 1);
   button "done" "Done" Danger false].

End Pager.

(** The row of buttons of the first message; [next] is disabled on
    [filteredEvents.length <= EVENTS_PER_PAGE]. *)
Definition initialButtons (filteredEvents : list Raw.event) : list Button :=
  [button "prev" "Previous" Primary true;
   button "next" "Next" Primary
     (Z.of_nat (length filteredEvents) <=? EVENTS_PER_PAGE);
   button "done" "Done" Danger false].

(** ** The outside world *)

(** The calls [run] makes on its collaborators, in the order they are
    made. *)
Inductive Effect : Type :=
| DbConnect                                   (* MongoClient.connect *)
| Reply (content : string) (ephemeral : bool) (* interaction.reply *)
| FollowUp (content : string)                 (* interaction.followUp *)
| ReadToken                                   (* fs.readFile(TOKEN_PATH) *)
| Authenticate                                (* the consent flow *)
| ReadCredentials                             (* fs.readFile(CREDENTIALS_PATH) *)
| WriteToken                                  (* fs.writeFile(TOKEN_PATH) *)
| EventsList                                  (* calendar.events.list *)
| UpdateOne (doc : Event)                     (* eventsCollection.updateOne, upsert *)
| ConsoleError                                (* console.error *)
| CreateDM                                    (* interaction.user.createDM *)
| Send (embed : Embed) (row : list Button)    (* dmChannel.send *)
| CreateCollector (time : Z)                  (* message.createMessageComponentCollector *)
| CollectorStop                               (* collector.stop *)
| Edit (embed : option Embed) (rows : list (list Button)) (* message.edit *)
| ButtonReply (content : string)              (* btnInteraction.reply *)
| DeferUpdate                                 (* btnInteraction.deferUpdate *)
| UnhandledRejection (e : exn).               (* a listener's promise rejects *)

(** What the collaborators answer during one invocation.  The chat client's
    calls are taken to succeed while the command runs; in the paging session
    further down an edit of the message may be refused. *)
Record World : Type := {
  connects : bool;              (* MongoClient.connect resolves *)
  tokenSaved : bool;            (* token.json is there and parses *)
  consents : bool;              (* authenticate resolves *)
  consentCredentials : bool;    (* client.credentials is set *)
  credentialsRead : bool;       (* credentials.json is read and parses *)
  tokenWritten : bool;          (* token.json is written *)
  listing : option (option (list Raw.event));
                                (* calendar.events.list: rejects, or resolves
                                   with [res.data.items], which may be absent *)
  upserts : Event -> bool;      (* updateOne resolves for this document *)
}.

(** A computation: the trace of its calls, and its value or the exception
    that ended it. *)
Definition M (A : Type) : Type := list Effect * result A.

Definition ret {A : Type} (x : A) : M A := ([], inr x).

Definition bind {A B : Type} (m : M A) (k : A -> M B) : M B :=
  match m with
  | (t, inl e) => (t, inl e)
  | (t, inr x) => let '(t', r) := k x in (t ++ t', r)
  end.

Definition emit (e : Effect) : M unit := ([e], inr tt).

Definition throw {A : Type} (e : exn) : M A := ([], inl e).

Definition lift {A : Type} (r : result A) : M A := ([], r).

(** [try { m } catch (err) { h(err) }] *)
Definition tryCatch {A : Type} (m : M A) (h : exn -> M A) : M A :=
  match m with
  | (t, inl e) => let '(t', r) := h e in (t ++ t', r)
  | ok => ok
  end.

Notation "'let*' x := m 'in' k" := (bind m (fun x => k))
  (at level 10, x name, m at level 100, k at level 200).
Notation "'run!' m 'in' k" := (bind m (fun _ => k))
  (at level 10, m at level 100, k at level 200).

(** An external call that resolves or rejects. *)
Definition call (e : Effect) (ok : bool) (what : string) : M unit :=
  run! emit e in
  if ok then ret tt else throw (Rejected what).

(** ** The command *)

(** Where an invocation stands when [run] returns: nothing more happens, or
    a paging session is open on the message sent to the user. *)
Record Session : Type := {
  currentPage : Z;
  message : Message;
  ended : bool;                 (* the collector has ended *)
}.

Inductive Outcome : Type :=
| Done
| Paging (parsedEvents : list Parsed.t) (s : Session).

(** The session as [listEvents] opens it: [currentPage] is 0, the message
    shows [initialEmbed] and the first row of buttons, the collector is
    listening. *)
Definition openSession (initialEmbed : Embed) (filtered : list Raw.event)
  : Session :=
  {| currentPage := 0;
     message := {| embeds := [initialEmbed];
                   components := [initialButtons filtered] |};
     ended := false |}.

Section Command.

Context {host : Host}.
Variable w : World.

(** [authorize()], with [loadSavedCredentialsIfExist] and
    [saveCredentials]. *)
Definition authorize : M unit :=
  run! emit ReadToken in
  if tokenSaved w then ret tt
  else
    run! call Authenticate (consents w) "authenticate" in
    if consentCredentials w
    then
      run! call ReadCredentials (credentialsRead w) "fs.readFile" in
      call WriteToken (tokenWritten w) "fs.writeFile"
    else ret tt.

(** The loop that stores every fetched event: a failure of the database is
    logged and the loop goes on; an event without summary ends it. *)
Fixpoint storeEvents (events : list Raw.event) : M unit :=
  match events with
  | [] => ret tt
  | event :: rest =>
      let* doc := lift (eventData event) in
      run! tryCatch (call (UpdateOne doc) (upserts w doc) "updateOne")
             (fun _ => emit ConsoleError) in
      storeEvents rest
  end.

Definition noEvents : string := "No events found over the next 10 days.".
Definition noMatch : string := "No events found matching the specified filters.".
Definition retrievalFailed : string := "Failed to retrieve calendar events.".
Definition authenticating : string := "Authenticating and fetching events...".
Definition runFailed : string :=
  "An error occurred during authentication or event retrieval.".

(** [listEvents(auth, interaction, className, locationType)] *)
Definition listEvents (a : Arg.t) : M Outcome :=
  tryCatch
    (run! emit EventsList in
     let* items :=
       match listing w with
       | None => throw (Rejected "calendar.events.list")
       | Some items => ret items
       end in
     let events := default [] items in
     if (length events =? 0)%nat
     then run! emit (FollowUp noEvents) in ret Done
     else
       run! storeEvents events in
       let* filtered := lift (filteredEvents a events) in
       if (length filtered =? 0)%nat
       then run! emit (FollowUp noMatch) in ret Done
       else
         let* parsedEvents := lift (parseEvents filtered) in
         let currentPage := 0 in
         run! emit CreateDM in
         let* initialEmbed := lift (generateEmbed a parsedEvents currentPage) in
         run! emit (Send initialEmbed (initialButtons filtered)) in
         run! emit (CreateCollector 300000) in
         ret (Paging parsedEvents (openSession initialEmbed filtered)))
    (fun _ =>
       run! emit ConsoleError in
       run! emit (FollowUp retrievalFailed) in
       ret Done).

(** [run(interaction)]: the connection to the database comes first, then
    the three checks, then the authorisation and the listing. *)
Definition run (o : Options) : M Outcome :=
  run! call DbConnect (connects w) "MongoClient.connect" in
  let a := Arg.ofOptions o in
  match validate a with
  | Some content => run! emit (Reply content true) in ret Done
  | None =>
      tryCatch
        (run! emit (Reply authenticating false) in
         run! authorize in
         listEvents a)
        (fun _ =>
           run! emit ConsoleError in
           run! emit (FollowUp runFailed) in
           ret Done)
  end.

End Command.

(** ** The paging session *)

Section Controller.

Variable a : Arg.t.
Variable parsedEvents : list Parsed.t.

(** [message.edit(payload)]: only the properties of the payload change. *)
Definition edit (embed : option Embed) (rows : list (list Button)) (m : Message)
  : Message :=
  {| embeds := match embed with Some e => [e] | None => embeds m end;
     components := rows |}.

(** [updateMessage(page, message)] up to its [await]: the embed and the row
    of buttons it hands to [message.edit], unless [generateEmbed] throws. *)
Definition updateMessage (page : Z) : result (Embed * list Button) :=
  rbind (generateEmbed a parsedEvents page)
    (fun embed => inr (embed, pageButtons parsedEvents page)).

(** The listener of the collector's [end] event. *)
Definition onEnd (m : Message) : Message * list Effect :=
  (edit None [] m, [Edit None []]).

(** [currentPage] after the two tests of the listener of [collect]. *)
Definition turnPage (id : string) (page : Z) : Z :=
  let p1 := if String.eqb id "prev" then page - 1 else page in
  if String.eqb id "next" then p1 + 1 else p1.

(** *** The listeners, run to their end

    Each listener here runs through its awaits before the next event comes:
    the edits it asks for are made before anything else happens.  The
    listeners between their awaits are further down. *)

(** The listener of [collect].  [collector.stop()] emits [end], so the
    listener above runs inside the first branch.  When [generateEmbed]
    throws, [currentPage] has moved already, no edit is asked for and the
    promise of the listener rejects with nobody awaiting it. *)
Definition onCollect (id : string) (s : Session) : Session * list Effect :=
  if String.eqb id "done"
  then
    let '(m1, e1) := onEnd (message s) in
    ({| currentPage := currentPage s; message := edit None [] m1; ended := true |},
     CollectorStop :: e1 ++ [Edit None []; ButtonReply "Collector manually terminated."])
  else
    let page := turnPage id (currentPage s) in
    match updateMessage page with
    | inr (embed, buttons) =>
        ({| currentPage := page;
            message := edit (Some embed) [buttons] (message s);
            ended := ended s |},
         [Edit (Some embed) [buttons]; DeferUpdate])
    | inl err =>
        ({| currentPage := page; message := message s; ended := ended s |},
         [UnhandledRejection err])
    end.

(** A collector that has ended passes nothing on to its listeners. *)
Definition deliver (id : string) (s : Session) : Session * list Effect :=
  if ended s then (s, []) else onCollect id s.

(** The five minutes of the collector are over. *)
Definition expire (s : Session) : Session * list Effect :=
  if ended s then (s, [])
  else
    let '(m, e) := onEnd (message s) in
    ({| currentPage := currentPage s; message := m; ended := true |}, e).

(** The button [id] is on the message and can be pressed. *)
Definition enabled (id : string) (s : Session) : bool :=
  existsb (existsb (fun b => String.eqb (customId b) id && negb (disabled b)))
    (components (message s)).

(** *** The listeners between their awaits

    A listener runs from the event to its first [await] in one piece; what
    follows the [await] runs when the awaited call is answered, and other
    events may come in between.  Nothing in the source makes an event wait
    for the listener of the event before it. *)

(** A call of [message.edit] that has not been answered: the payload, and
    what the listener awaiting it does next. *)
Record Request : Type := {
  payloadEmbed : option Embed;
  payloadRows : list (list Button);
  andThen : list Effect;
}.

(** A session with the edits under way, the oldest first (the client sends
    the requests on one message one after the other).  The message of the
    session is the message as it is shown: an edit changes it once it is
    answered. *)
Record Live : Type := {
  session : Session;
  pending : list Request;
}.

Definition quiet (s : Session) : Live := {| session := s; pending := [] |}.

(** A [collect] event: the listener up to its [await].  [currentPage] moves
    at once, the edit is only asked for.  With "done" the two edits, of the
    listener of [end] and of the listener itself, are asked for in a row. *)
Definition press (id : string) (l : Live) : Live * list Effect :=
  let s := session l in
  if ended s then (l, [])
  else if String.eqb id "done"
  then
    ({| session := {| currentPage := currentPage s; message := message s;
                      ended := true |};
        pending := pending l
          ++ [{| payloadEmbed := None; payloadRows := []; andThen := [] |};
              {| payloadEmbed := None; payloadRows := [];
                 andThen := [ButtonReply "Collector manually terminated."] |}] |},
     [CollectorStop; Edit None []; Edit None []])
  else
    let page := turnPage id (currentPage s) in
    match updateMessage page with
    | inr (embed, buttons) =>
        ({| session := {| currentPage := page; message := message s;
                          ended := ended s |};
            pending := pending l
              ++ [{| payloadEmbed := Some embed; payloadRows := [buttons];
                     andThen := [DeferUpdate] |}] |},
         [Edit (Some embed) [buttons]])
    | inl err =>
        ({| session := {| currentPage := page; message := message s;
                          ended := ended s |};
            pending := pending l |},
         [UnhandledRejection err])
    end.

(** The oldest edit is answered: the message changes and the listener that
    awaited the edit goes on. *)
Definition answer (l : Live) : Live * list Effect :=
  match pending l with
  | [] => (l, [])
  | r :: rest =>
      let s := session l in
      ({| session := {| currentPage := currentPage s;
                        message := edit (payloadEmbed r) (payloadRows r) (message s);
                        ended := ended s |};
          pending := rest |},
       andThen r)
  end.

(** The oldest edit is refused: the message stays, the promise of the
    listener that awaited the edit rejects. *)
Definition refuse (l : Live) : Live * list Effect :=
  match pending l with
  | [] => (l, [])
  | r :: rest =>
      ({| session := session l; pending := rest |},
       [UnhandledRejection (Rejected "message.edit")])
  end.

(** The five minutes are over: the listener of [end] up to its [await]. *)
Definition timeout (l : Live) : Live * list Effect :=
  let s := session l in
  if ended s then (l, [])
  else
    ({| session := {| currentPage := currentPage s; message := message s;
                      ended := true |};
        pending := pending l
          ++ [{| payloadEmbed := None; payloadRows := []; andThen := [] |}] |},
     [Edit None []]).

(** All that can come about from [l0]: the user presses a button that the
    message shows enabled, an edit is answered or refused, the time is up,
    in any order. *)
Inductive reachable (l0 : Live) : Live -> Prop :=
| reach_start : reachable l0 l0
| reach_press l id :
    reachable l0 l -> enabled id (session l) = true ->
    reachable l0 (press id l).1
| reach_answer l :
    reachable l0 l -> reachable l0 (answer l).1
| reach_refuse l :
    reachable l0 l -> reachable l0 (refuse l).1
| reach_timeout l :
    reachable l0 l -> reachable l0 (timeout l).1.

(** The same with every edit answered, and no button pressed while an edit
    is under way. *)
Inductive inTurn (l0 : Live) : Live -> Prop :=
| turn_start : inTurn l0 l0
| turn_press l id :
    inTurn l0 l -> pending l = [] -> enabled id (session l) = true ->
    inTurn l0 (press id l).1
| turn_answer l :
    inTurn l0 l -> inTurn l0 (answer l).1
| turn_timeout l :
    inTurn l0 l -> inTurn l0 (timeout l).1.

End Controller.

(** ** The [/reminder] command *)

Module Reminder.

(** What [run] and [parseReminderTime] throw. *)
Inductive thrown : Type :=
| Error (message : string)
| TypeError (what : string).

(** The calls of [run] on the outside, in order. *)
Inductive effect : Type :=
| Log                                           (* console.log *)
| Reply (content : string) (ephemeral : bool)   (* interaction.reply *)
| ScheduleJob (at_ : option Z) (userId : string) (event : Raw.event).
                                                (* schedule.scheduleJob *)

(** The host's clock: [getTime s] is [new Date(s).getTime()], in
    milliseconds, [None] standing for [NaN]. *)
Class Clock : Type := {
  getTime : string -> option Z;
}.

(** The last character of a string and what is before it. *)
Fixpoint unsnoc (s : string) : option (string * ascii) :=
  match s with
  | EmptyString => None
  | String c s' =>
      match unsnoc s' with
      | None => Some (EmptyString, c)
      | Some (init, last) => Some (String c init, last)
      end
  end.

Fixpoint allDigits (s : string) : bool :=
  match s with
  | EmptyString => true
  | String c s' => isDigit c && allDigits s'
  end.

(** [timeStr.match(/^(\d+)([mh])$/)]: the two groups. *)
Definition timeRegex (timeStr : string) : option (string * ascii) :=
  match unsnoc timeStr with
  | Some (value, unit) =>
      if nonEmpty value && allDigits value
         && (Ascii.eqb unit "m" || Ascii.eqb unit "h")
      then Some (value, unit)
      else None
  | None => None
  end.

(** [units], the object literal. *)
Definition units (unit : ascii) : Z :=
  if Ascii.eqb unit "m" then 60000
  else if Ascii.eqb unit "h" then 3600000
  else 0.

(** [parseInt(value)] on the digits the regular expression lets through:
    the number they write in base ten.  Like the product below, it is exact
    on values under 2^53. *)
Definition parseInt (value : string) : Z :=
  match NilZero.uint_of_string value with
  | Some d => Z.of_uint d
  | None => 0
  end.

Definition invalidTimeFormat : string :=
  "Invalid time format. Use '15m', '30m', or '1h'.".

(** [parseReminderTime(timeStr)] *)
Definition parseReminderTime (timeStr : string) : thrown + Z :=
  match timeRegex timeStr with
  | None => inl (Error invalidTimeFormat)
  | Some (value, unit) => inr (parseInt value * units unit)
  end.

(** [events.find((e) => e.summary.toLowerCase() === eventName.toLowerCase())]:
    the first event that passes; reading [toLowerCase] from an absent
    summary throws. *)
Fixpoint find (eventName : string) (events : list Raw.event)
  : thrown + option Raw.event :=
  match events with
  | [] => inr None
  | e :: rest =>
      match Raw.summary e with
      | None =>
          inl (TypeError "Cannot read properties of undefined (reading 'toLowerCase')")
      | Some summary =>
          if String.eqb (toLowerCase summary) (toLowerCase eventName)
          then inr (Some e)
          else find eventName rest
      end
  end.

(** [new Date(ms)]: a time value beyond 8.64e15 ms makes an invalid date. *)
Definition timeClip (ms : Z) : option Z :=
  if Z.abs ms <=? 8640000000000000 then Some ms else None.

Definition noEventsFetched : string :=
  "You have no events fetched. Please use `/calendar` first.".

Definition notFound (eventName : string) : string :=
  "Event " +:+ dq +:+ eventName +:+ dq +:+ " not found.".

Definition reminderSet (summary : option string) (reminderTimeStr : string) : string :=
  "Reminder set for " +:+ dq +:+ interpolate summary +:+ dq +:+ " "
  +:+ reminderTimeStr +:+ " before the event.".

Section Run.

Context {clock : Clock}.

(** [userEvents], the map from user ids to the events fetched for them. *)
Variable userEvents : gmap string (list Raw.event).

(** [run(interaction)], for the user [userId] and the two required options.
    [scheduleReminder] logs and hands the job to the scheduler. *)
Definition run (userId eventName reminderTimeStr : string)
  : list effect * (thrown + unit) :=
  match userEvents !! userId with
  | None | Some [] => ([Log; Reply noEventsFetched true], inr tt)
  | Some events =>
      match parseReminderTime reminderTimeStr with
      | inl e => ([Log; Log], inl e)
      | inr reminderOffsetMs =>
          match find eventName events with
          | inl e => ([Log; Log], inl e)
          | inr None => ([Log; Log; Reply (notFound eventName) true], inr tt)
          | inr (Some event) =>
              match Raw.start event with
              | None =>
                  ([Log; Log],
                   inl (TypeError "Cannot read properties of undefined (reading 'dateTime')"))
              | Some t =>
                  let eventStart :=
                    orElse (Raw.dateTime t) (Raw.date t) ≫= getTime in
                  let reminderTime :=
                    eventStart ≫= fun ms => timeClip (ms - reminderOffsetMs) in
                  ([Log; Log; Log; Log; Log;
                    ScheduleJob reminderTime userId event;
                    Reply (reminderSet (Raw.summary event) reminderTimeStr) true],
                   inr tt)
              end
          end
      end
  end.

End Run.

(** The jobs handed to the scheduler. *)
Definition scheduled (t : list effect) : list (option Z * string * Raw.event) :=
  omap (fun e =>
          match e with
          | ScheduleJob at_ userId event => Some (at_, userId, event)
          | _ => None
          end) t.


End Reminder.

(** ** The [/jobform] command *)

Module JobForm.

Definition questions : list (list string) :=
  [["What city are you located in?";
    "Are you looking for remote or in person?";
    "Job, internship or both?";
    "How far are you willing to travel?"];
   ["Interest 1"; "Interest 2"; "Interest 3"; "Interest 4"; "Interest 5"]].

(** A number of the language, as far as [run] tells numbers apart: an
    integer, or a number that is not one. *)
Inductive number : Type :=
| Int (z : Z)
| NotInt.

Inductive TextInputStyle : Type := Short | Paragraph.

Record TextInput : Type := {
  customId : string;
  label : string;
  style : TextInputStyle;
  placeholder : string;
}.

Record Modal : Type := {
  modalId : string;
  modalTitle : string;
  rows : list (list TextInput);
}.

Inductive effect : Type :=
| Reply (content : string)      (* interaction.reply *)
| ShowModal (modal : Modal).    (* interaction.showModal *)

(** [getAnswerField(question, questionNum)]: a row of one text input. *)
Definition getAnswerField (question : string) (questionNum : Z) : list TextInput :=
  [{| customId := "question" +:+ showZ (questionNum + 1);
      label := question;
      style := Short;
      placeholder := "Input Answer Here" |}].

(** [array.indexOf(x)]: the first index of [x], -1 when there is none. *)
Fixpoint indexOf (x : string) (l : list string) : Z :=
  match l with
  | [] => -1
  | y :: l' =>
      if String.eqb y x then 0
      else match indexOf x l' with
           | Z.neg _ => -1
           | i => i + 1
           end
  end.

(** The rows of the modal for the questions asked. *)
Definition answerRows (askedQuestions : list string) : list (list TextInput) :=
  (fun question => getAnswerField question (indexOf question askedQuestions))
    <$> askedQuestions.

(** [interaction.options.getNumber('qset') - 1]; [null - 1] is -1. *)
Definition questionSetOf (qset : option number) : number :=
  match qset with
  | None => Int (-1)
  | Some (Int z) => Int (z - 1)
  | Some NotInt => NotInt
  end.

Definition enterOneOrTwo : string := "Please enter either 1 or 2".

(** [run(interaction)] *)
Definition run (qset : option number) : list effect :=
  match questionSetOf qset with
  | Int questionSet =>
      if negb (questionSet =? 0) && negb (questionSet =? 1)
      then [Reply enterOneOrTwo]
      else
        let askedQuestions := default [] (questions !! Z.to_nat questionSet) in
        [ShowModal
           {| modalId := "jobModal" +:+ showZ questionSet;
              modalTitle := "Job Form (" +:+ showZ (questionSet + 1) +:+ " of 2)";
              rows := answerRows askedQuestions |}]
  | NotInt => [Reply enterOneOrTwo]
  end.

(** [getAnswer(fields, questionNum)]: [fields.getField] throws when the
    submission has no field of that id. *)
Definition getAnswer (fields : gmap string string) (questionNum : Z)
  : result string :=
  match fields !! ("question" +:+ showZ (questionNum + 1)) with
  | Some value => inr value
  | None => inl (TypeError "ModalSubmitInteractionFieldNotFound")
  end.

(** What the chat client sends back for a modal: one field for each text
    input, under its custom id, holding what the user typed there. *)
Definition submission (modalRows : list (list TextInput)) (typed : list string)
  : gmap string string :=
  list_to_map (zip (customId <$> concat modalRows) typed).

End JobForm.

(** ** Auxiliary definitions for the statements *)

(** What the user is told during an invocation: the contents of the replies
    and follow-ups, in order. *)
Definition said (t : list Effect) : list string :=
  omap (fun e =>
          match e with
          | Reply content _ => Some content
          | FollowUp content => Some content
          | _ => None
          end) t.

(** The summary of [event], lower-cased, contains [needle]; false when the
    summary is absent or empty. *)
Definition summaryHas (needle : string) (event : Raw.event) : bool :=
  match Raw.summary event with
  | Some s => nonEmpty s && includes needle (toLowerCase s)
  | None => false
  end.

(** The [locationType] under which [event] is stored. *)
Definition storedLocationType `{Host} (event : Raw.event) : option string :=
  match eventData event with
  | inr e => Some (locationType e)
  | inl _ => None
  end.

(** The form [dateRegex] accepts: a month name of [monthNames], one space,
    one or two digits. *)
Definition monthAndDigits (s : string) : Prop :=
  ∃ m d, m ∈ monthNames ∧ oneOrTwoDigits d = true ∧ s = m +:+ " " +:+ d.

(** Criteria with one of them taken away. *)
Definition withoutLocationType (a : Arg.t) : Arg.t :=
  {| Arg.className := Arg.className a;
     Arg.locationType := "";
     Arg.eventHolder := Arg.eventHolder a;
     Arg.eventDate := Arg.eventDate a;
     Arg.dayOfWeek := Arg.dayOfWeek a |}.

Definition withoutEventDate (a : Arg.t) : Arg.t :=
  {| Arg.className := Arg.className a;
     Arg.locationType := Arg.locationType a;
     Arg.eventHolder := Arg.eventHolder a;
     Arg.eventDate := "";
     Arg.dayOfWeek := Arg.dayOfWeek a |}.

(** Some supplied option fails its check. *)
Definition malformed (a : Arg.t) : Prop :=
  (Arg.className a ≠ "" ∧ classNameRegex (Arg.className a) = false)
  ∨ (Arg.locationType a ≠ "" ∧ Arg.locationType a ∉ ["IP"; "V"])
  ∨ (Arg.eventDate a ≠ "" ∧ dateRegex (Arg.eventDate a) = false).

(** The names [daysOfWeekMap] knows. *)
Definition weekdayNames : list string :=
  ["sunday"; "monday"; "tuesday"; "wednesday"; "thursday"; "friday"; "saturday"].

(** The options with another [dayofweek]. *)
Definition withDayofweek (d : option string) (o : Options) : Options :=
  {| classname := classname o; locationtype := locationtype o;
     eventholder := eventholder o; eventdate := eventdate o;
     dayofweek := d |}.

(** The provider was asked for the events. *)
Definition providerCalled (t : list Effect) : bool :=
  existsb (fun e => match e with EventsList => true | _ => false end) t.

(** The page index is within the pages. *)
Definition pageInRange (parsedEvents : list Parsed.t) (s : Session) : Prop :=
  0 ≤ currentPage s ≤ pageCount parsedEvents - 1.

(** [EmbedBuilder] takes the title and every field of the page; all the
    pages from 0 to [pageCount - 1] are so. *)
Definition pageFits (a : Arg.t) (parsedEvents : list Parsed.t) (page : Z) : bool :=
  titleFits (embedTitle a parsedEvents page)
  && forallb fieldFits (imap (embedField page) (pageOf parsedEvents page)).

Definition allPagesFit (a : Arg.t) (parsedEvents : list Parsed.t) : bool :=
  forallb (pageFits a parsedEvents) (seqZ 0 (pageCount parsedEvents)).

(** The embed of a page, when [EmbedBuilder] takes it. *)
Definition pageEmbed (a : Arg.t) (parsedEvents : list Parsed.t) (page : Z) : Embed :=
  {| color := "Green";
     title := embedTitle a parsedEvents page;
     fields := imap (embedField page) (pageOf parsedEvents page) |}.

(** The message once the edits under way are answered. *)
Definition finalMessage (l : Live) : Message :=
  foldl (fun m r => edit (payloadEmbed r) (payloadRows r) m)
    (message (session l)) (pending l).

(** What holds all along when the buttons are pressed in turn: the page is
    within range, and once the edits under way are answered the message
    shows the row of buttons of that page until the collector ends, none
    afterwards. *)
Definition liveInvariant (parsedEvents : list Parsed.t) (l : Live) : Prop :=
  pageInRange parsedEvents (session l)
  ∧ components (finalMessage l) =
      if ended (session l) then []
      else [pageButtons parsedEvents (currentPage (session l))].

(** No character of [s] is white space. *)
Fixpoint noWhite (s : string) : bool :=
  match s with
  | EmptyString => true
  | String c s' => negb (isWhite c) && noWhite s'
  end.

(** The documents handed to the database, in order, and the number of
    errors logged. *)
Definition upserted (t : list Effect) : list Event :=
  omap (fun e => match e with UpdateOne doc => Some doc | _ => None end) t.

Definition logged (t : list Effect) : nat :=
  length (List.filter (fun e => match e with ConsoleError => true | _ => false end) t).




(** The consent flow was started; the token file was written. *)
Definition asksConsent (t : list Effect) : bool :=
  existsb (fun e => match e with Authenticate => true | _ => false end) t.

Definition writesToken (t : list Effect) : bool :=
  existsb (fun e => match e with WriteToken => true | _ => false end) t.

(** ** Sample data *)

(** A host in the US Eastern time zone, on the instants the samples use (it
    reads the letters of an instant in either case). *)
Definition sampleInstants : list (string * (string * Z)) :=
  [("2024-12-09t10:00:00-05:00", ("December 9 at 10:00 AM EST", 1));
   ("2024-12-09t11:00:00-05:00", ("December 9 at 11:00 AM EST", 1));
   ("2024-12-10t14:00:00-05:00", ("December 10 at 02:00 PM EST", 2));
   ("2024-12-10t15:00:00-05:00", ("December 10 at 03:00 PM EST", 2));
   ("2024-12-12", ("December 11 at 07:00 PM EST", 3));
   ("2024-12-13", ("December 12 at 07:00 PM EST", 4))].

Definition sampleLookup (s : string) : option (string * Z) :=
  snd <$> List.find (fun e => String.eqb (fst e) (toLowerCase s)) sampleInstants.

Definition sampleHost : Host :=
  {| toLocaleString s := default "Invalid Date" (fst <$> sampleLookup s);
     getDay s := snd <$> sampleLookup s |}.

Definition timed (eid summary from to : string) : Raw.event :=
  {| Raw.id := eid;
     Raw.summary := Some summary;
     Raw.start := Some {| Raw.dateTime := Some from; Raw.date := None |};
     Raw.end_ := Some {| Raw.dateTime := Some to; Raw.date := None |};
     Raw.location := None |}.

Definition allDay (eid summary from to : string) : Raw.event :=
  {| Raw.id := eid;
     Raw.summary := Some summary;
     Raw.start := Some {| Raw.dateTime := None; Raw.date := Some from |};
     Raw.end_ := Some {| Raw.dateTime := None; Raw.date := Some to |};
     Raw.location := None |}.

Definition officeHours (eid summary : string) : Raw.event :=
  timed eid summary "2024-12-09T10:00:00-05:00" "2024-12-09T11:00:00-05:00".

Definition sevenEvents : list Raw.event :=
  [officeHours "e1" "cisc108-Smith-Virtual";
   officeHours "e2" "cisc181-Jones-In Person";
   officeHours "e3" "cisc210-Silber-Virtual";
   officeHours "e4" "cisc220-Roosen-In Person";
   officeHours "e5" "cisc275-Bart-Virtual";
   officeHours "e6" "cisc320-Yarrington-In Person";
   officeHours "e7" "cisc375-Marrero-Virtual"].

Definition criteria (cn lt eh ed dow : string) : Arg.t :=
  {| Arg.className := cn; Arg.locationType := lt; Arg.eventHolder := eh;
     Arg.eventDate := ed; Arg.dayOfWeek := dow |}.

Definition noOptions : Options :=
  {| classname := None; locationtype := None; eventholder := None;
     eventdate := None; dayofweek := None |}.

Definition onlyClassname (cn : string) : Options :=
  {| classname := Some cn; locationtype := None; eventholder := None;
     eventdate := None; dayofweek := None |}.

Definition onlyLocationtype (lt : string) : Options :=
  {| classname := None; locationtype := Some lt; eventholder := None;
     eventdate := None; dayofweek := None |}.

Definition onlyEventdate (ed : string) : Options :=
  {| classname := None; locationtype := None; eventholder := None;
     eventdate := Some ed; dayofweek := None |}.

Definition onlyDayofweek (d : string) : Options :=
  {| classname := None; locationtype := None; eventholder := None;
     eventdate := None; dayofweek := Some d |}.

(** The seven events as the pager gets them. *)
Definition sevenParsed : list Parsed.t :=
  match parseEvents (host := sampleHost) sevenEvents with
  | inr l => l
  | inl _ => []
  end.





(** The session on the seven events: as it is opened, and after "next"
    was pressed twice. *)
Definition firstEmbed : Embed :=
  match generateEmbed (criteria "" "" "" "" "") sevenParsed 0 with
  | inr embed => embed
  | inl _ => {| color := ""; title := ""; fields := [] |}
  end.

Definition firstPage : Session := openSession firstEmbed sevenEvents.


(** The same with the edits in view: "next", the edit answered, "next", the
    edit answered. *)
Definition nextAnswered (l : Live) : Live :=
  (answer (press (criteria "" "" "" "" "") sevenParsed "next" l).1).1.

Definition lastPageLive : Live := nextAnswered (nextAnswered (quiet firstPage)).



(** A world where everything works and the provider lists [events]. *)
Definition fineWorld (events : list Raw.event) : World :=
  {| connects := true; tokenSaved := true; consents := true;
     consentCredentials := true; credentialsRead := true;
     tokenWritten := true;
     listing := Some (Some events); upserts := fun _ => true |}.

(** * Properties *)

(** ** The primitives *)

#[local] Arguments String.append !_ _ /.

Lemma append_empty_r (s : string) : s +:+ "" = s.
Proof. induction s as [|c s IH]; simpl; [done | by rewrite IH]. Qed.

Lemma append_assoc (s t u : string) : (s +:+ t) +:+ u = s +:+ t +:+ u.
Proof. induction s as [|c s IH]; simpl; [done | by rewrite IH]. Qed.

Lemma ascii_eqb_true (x y : ascii) : Ascii.eqb x y = true ↔ x = y.
Proof. apply Ascii.eqb_eq. Qed.

Lemma startsWith_append (p s : string) : startsWith p (p +:+ s) = true.
Proof.
  induction p as [|c p IH]; simpl; [done |].
  by rewrite Ascii.eqb_refl.
Qed.

Lemma startsWith_inv (p s : string) :
  startsWith p s = true → ∃ r, s = p +:+ r.
Proof.
  revert s. induction p as [|c p IH]; intros s H; simpl in *.
  - by exists s.
  - destruct s as [|d s]; [done |].
    destruct (Ascii.eqb c d) eqn:E; [| done].
    apply ascii_eqb_true in E as ->.
    destruct (IH _ H) as [r ->]. by exists r.
Qed.

Lemma includes_cons (n : string) (c : ascii) (s : string) :
  includes n s = true → includes n (String c s) = true.
Proof. intros H. simpl. rewrite H. apply orb_true_r. Qed.

Lemma includes_startsWith (n s : string) :
  startsWith n s = true → includes n s = true.
Proof. intros H. destruct s; simpl; by rewrite H. Qed.

Lemma includes_append (n pre post : string) :
  includes n (pre +:+ n +:+ post) = true.
Proof.
  induction pre as [|c pre IH].
  - change ("" +:+ n +:+ post) with (n +:+ post).
    apply includes_startsWith, startsWith_append.
  - change (String c pre +:+ n +:+ post) with (String c (pre +:+ n +:+ post)).
    by apply includes_cons.
Qed.

Lemma includes_inv (n s : string) :
  includes n s = true → ∃ pre post, s = pre +:+ n +:+ post.
Proof.
  induction s as [|c s IH]; simpl; intros H.
  - rewrite orb_false_r in H. apply startsWith_inv in H as [r ->].
    by exists "", r.
  - apply orb_true_iff in H as [H | H].
    + apply startsWith_inv in H as [r ->]. by exists "", r.
    + destruct (IH H) as (pre & post & ->). by exists (String c pre), post.
Qed.

Lemma includes_spec (n s : string) :
  includes n s = true ↔ ∃ pre post, s = pre +:+ n +:+ post.
Proof.
  split; [apply includes_inv |].
  intros (pre & post & ->). apply includes_append.
Qed.

(** A string that contains [n] contains every part of [n]. *)
Lemma includes_trans (n m s : string) :
  includes n m = true → includes m s = true → includes n s = true.
Proof.
  rewrite !includes_spec.
  intros (p1 & q1 & ->) (p2 & q2 & ->).
  exists (p2 +:+ p1), (q1 +:+ q2). by rewrite !append_assoc.
Qed.

Lemma includes_nonEmpty (n s : string) :
  nonEmpty n = true → includes n s = true → nonEmpty s = true.
Proof.
  intros Hn (pre & post & ->)%includes_inv.
  destruct pre; [| done]. destruct n; done.
Qed.

Lemma stripPrefix_spec (p s r : string) :
  stripPrefix p s = Some r ↔ s = p +:+ r.
Proof.
  revert s. induction p as [|c p IH]; intros s; simpl.
  - split; [by intros [= ->] | by intros ->].
  - destruct s as [|d s]; [split; done |].
    destruct (Ascii.eqb c d) eqn:E.
    + apply ascii_eqb_true in E as ->. rewrite IH.
      split; [by intros -> | by intros [= ->]].
    + split; [done |]. intros [= -> _]. by rewrite Ascii.eqb_refl in E.
Qed.

Lemma toLowerCase_append (s t : string) :
  toLowerCase (s +:+ t) = toLowerCase s +:+ toLowerCase t.
Proof. induction s as [|c s IH]; simpl; [done | by rewrite IH]. Qed.

Lemma nonEmpty_toLowerCase (s : string) :
  nonEmpty (toLowerCase s) = nonEmpty s.
Proof. by destruct s. Qed.

Lemma nonEmpty_true (s : string) : nonEmpty s = true ↔ s ≠ "".
Proof. destruct s; simpl; split; done. Qed.

(** Lower-casing keeps the white-space class of a character. *)
Lemma isWhite_lowerChar (c : ascii) : isWhite (lowerChar c) = isWhite c.
Proof. by destruct c as [[] [] [] [] [] [] [] []]. Qed.

(** *** [split]: the parts are pieces of the string *)

Lemma split_not_nil (sep : ascii) (s : string) : split sep s ≠ [].
Proof.
  destruct s as [|c s]; simpl; [done |].
  destruct (Ascii.eqb c sep); [done |]. by destruct (split sep s).
Qed.

Lemma split_head (sep : ascii) (s h : string) (t : list string) :
  split sep s = h :: t → ∃ r, s = h +:+ r.
Proof.
  revert h t. induction s as [|c s IH]; intros h t; simpl.
  - intros [= <- <-]. by exists "".
  - destruct (Ascii.eqb c sep).
    + intros [= <- <-]. by exists (String c s).
    + destruct (split sep s) as [|h' t'] eqn:E.
      * by destruct (split_not_nil sep s).
      * intros [= <- <-]. destruct (IH _ _ eq_refl) as [r ->]. by exists r.
Qed.

(** *** [trim]: what is removed is white space at the two ends *)

Lemma trimStart_suffix (s : string) : ∃ pre, s = pre +:+ trimStart s.
Proof.
  induction s as [|c s [pre IH]]; simpl; [by exists "" |].
  destruct (isWhite c); [| by exists ""].
  exists (String c pre). simpl. by rewrite <- IH.
Qed.

Lemma trimEnd_prefix (s : string) : ∃ post, s = trimEnd s +:+ post.
Proof.
  induction s as [|c s [post IH]]; simpl; [by exists "" |].
  destruct (trimEnd s) as [|d t] eqn:E.
  - destruct (isWhite c); [by exists (String c s) |].
    exists post. simpl. by rewrite IH at 1.
  - exists post. simpl. by rewrite IH at 1.
Qed.

Lemma trim_part (s : string) : ∃ pre post, s = pre +:+ trim s +:+ post.
Proof.
  destruct (trimStart_suffix s) as [pre Hpre].
  destruct (trimEnd_prefix (trimStart s)) as [post Hpost].
  exists pre, post. unfold trim. by rewrite <- Hpost.
Qed.

Lemma startsWith_trimEnd (n s : string) :
  noWhite n = true → startsWith n (trimEnd s) = startsWith n s.
Proof.
  revert n. induction s as [|c s IH]; intros n Hn; [done |].
  destruct n as [|a n]; [by destruct (trimEnd (String c s)) |].
  simpl in Hn. apply andb_true_iff in Hn as [Ha Hn].
  specialize (IH n Hn). simpl.
  destruct (trimEnd s) as [|d t] eqn:E.
  - destruct (isWhite c) eqn:Hc; simpl.
    + destruct (Ascii.eqb a c) eqn:Hac; [| done].
      apply ascii_eqb_true in Hac as ->. by rewrite Hc in Ha.
    + by rewrite <- IH.
  - simpl. by rewrite <- IH.
Qed.

Lemma includes_trimEnd (n s : string) :
  nonEmpty n = true → noWhite n = true →
  includes n (trimEnd s) = includes n s.
Proof.
  intros Hne Hn. induction s as [|c s IH]; [done |].
  assert (Hs := startsWith_trimEnd n (String c s) Hn).
  change (includes n (String c s))
    with (startsWith n (String c s) || includes n s).
  rewrite <- Hs, <- IH. simpl.
  destruct (trimEnd s) as [|d t] eqn:E; [| done].
  destruct (isWhite c); simpl; [| done].
  destruct n; [done |]. done.
Qed.

Lemma includes_trimStart (n s : string) :
  nonEmpty n = true → noWhite n = true →
  includes n (trimStart s) = includes n s.
Proof.
  intros Hne Hn. induction s as [|c s IH]; [done |].
  simpl. destruct (isWhite c) eqn:Hc; [| done].
  rewrite IH. destruct n as [|a n]; [done |].
  simpl in Hn. apply andb_true_iff in Hn as [Ha _].
  cbn [startsWith].
  destruct (Ascii.eqb a c) eqn:Hac; [| done].
  apply ascii_eqb_true in Hac as ->. by rewrite Hc in Ha.
Qed.

Lemma includes_trim (n s : string) :
  nonEmpty n = true → noWhite n = true →
  includes n (trim s) = includes n s.
Proof.
  intros Hne Hn. unfold trim.
  by rewrite includes_trimEnd, includes_trimStart.
Qed.

Lemma toLowerCase_trimStart (s : string) :
  toLowerCase (trimStart s) = trimStart (toLowerCase s).
Proof.
  induction s as [|c s IH]; [done |].
  simpl. rewrite isWhite_lowerChar. by destruct (isWhite c).
Qed.

Lemma toLowerCase_trimEnd (s : string) :
  toLowerCase (trimEnd s) = trimEnd (toLowerCase s).
Proof.
  induction s as [|c s IH]; [done |].
  simpl. rewrite isWhite_lowerChar, <- IH.
  destruct (trimEnd s); simpl; [by destruct (isWhite c) | done].
Qed.

Lemma toLowerCase_trim (s : string) :
  toLowerCase (trim s) = trim (toLowerCase s).
Proof. unfold trim. by rewrite toLowerCase_trimEnd, toLowerCase_trimStart. Qed.

(** ** Normalisation *)

Lemma eventData_returns `{Host} (event : Raw.event) (summary : string) :
  Raw.summary event = Some summary → ∃ doc, eventData event = inr doc.
Proof. intros Hs. unfold eventData. rewrite Hs. by eexists. Qed.

(** C7.  For every raw event that has a summary, whatever the number of
    parts the summary splits into, [eventData] does not throw; [courseID]
    and [instructor] are the first and second part, trimmed, and the empty
    string when the part is missing; [locationType] is "V" when the third
    part, taken as empty when missing, contains "virtual" in any case of
    letters, and "IP" otherwise. *)
Theorem eventData_total `{Host} (event : Raw.event) (summary : string) :
  Raw.summary event = Some summary →
  ∃ e, eventData event = inr e
    ∧ courseID e = trim (nth 0 (split "-" summary) "")
    ∧ instructor e = trim (nth 1 (split "-" summary) "")
    ∧ locationType e =
        if includes "virtual" (toLowerCase (nth 2 (split "-" summary) ""))
        then "V" else "IP".
Proof.
  intros Hs. unfold eventData. rewrite Hs. eexists. split; [reflexivity |].
  cbn [courseID instructor locationType].
  destruct (split "-" summary) as [|p0 [|p1 [|p2 rest]]]; simpl;
    repeat split; try done.
  by rewrite toLowerCase_trim, includes_trim.
Qed.

Lemma eventData_total_witness :
  Raw.summary (officeHours "e1" "CISC108 - Smith") = Some "CISC108 - Smith"
  ∧ ∃ e, eventData (host := sampleHost) (officeHours "e1" "CISC108 - Smith") = inr e
    ∧ courseID e = trim (nth 0 (split "-" "CISC108 - Smith") "")
    ∧ instructor e = trim (nth 1 (split "-" "CISC108 - Smith") "")
    ∧ locationType e =
        if includes "virtual" (toLowerCase (nth 2 (split "-" "CISC108 - Smith") ""))
        then "V" else "IP".
Proof.
  split; [reflexivity |].
  apply (eventData_total (H := sampleHost)
           (officeHours "e1" "CISC108 - Smith") "CISC108 - Smith").
  reflexivity.
Defined.

(** ** The pager *)

Lemma pageOf_nat (l : list Parsed.t) (i : nat) :
  pageOf l (Z.of_nat i) = take 3 (drop (3 * i) l).
Proof.
  unfold pageOf, slice, relIndex, EVENTS_PER_PAGE.
  destruct (Z.ltb_spec (Z.of_nat i * 3) 0) as [? | _]; [lia |].
  destruct (Z.ltb_spec ((Z.of_nat i + 1) * 3) 0) as [? | _]; [lia |].
  destruct (decide (3 * i + 3 ≤ length l)%nat) as [Hle | Hgt].
  - replace (Z.to_nat _) with 3%nat by lia.
    f_equal. f_equal. lia.
  - destruct (decide (3 * i ≤ length l)%nat) as [Hle' | Hgt'].
    + replace (Z.to_nat (Z.min (Z.of_nat i * 3) _)) with (3 * i)%nat by lia.
      rewrite !take_ge; [done | rewrite length_drop; lia ..].
    + rewrite !drop_ge by lia. by rewrite !take_nil.
Qed.


Lemma pageCount_covers (l : list Parsed.t) :
  0 ≤ pageCount l ∧ (length l ≤ 3 * Z.to_nat (pageCount l))%nat.
Proof.
  unfold pageCount, ceilDiv, EVENTS_PER_PAGE.
  assert (0 ≤ (Z.of_nat (length l) + 3 - 1) / 3) by (apply Z.div_pos; lia).
  split; [done |].
  assert (Z.of_nat (length l) ≤ 3 * ((Z.of_nat (length l) + 3 - 1) / 3)); [| lia].
  pose proof (Z.mul_succ_div_gt (Z.of_nat (length l) + 3 - 1) 3). lia.
Qed.

Lemma addFields_fits (new : list Field) :
  forallb fieldFits new = true → addFields new = inr new.
Proof.
  induction new as [|f new IH]; [done |]. simpl.
  intros [-> Hrest]%andb_true_iff. by rewrite IH.
Qed.

Lemma addFields_refused (new : list Field) :
  forallb fieldFits new = false →
  addFields new = inl (ValidationError "Invalid string length").
Proof.
  induction new as [|f new IH]; [done |]. simpl.
  destruct (fieldFits f); [| done]. simpl. intros Hrest. by rewrite IH.
Qed.

(** [generateEmbed] returns the embed of the page when [EmbedBuilder] takes
    the title and the fields, and throws when it does not. *)
Lemma generateEmbed_fits (a : Arg.t) (l : list Parsed.t) (p : Z) :
  pageFits a l p = true → generateEmbed a l p = inr (pageEmbed a l p).
Proof.
  unfold pageFits, generateEmbed. intros [-> Hf]%andb_true_iff.
  by rewrite addFields_fits.
Qed.

Lemma generateEmbed_refused (a : Arg.t) (l : list Parsed.t) (p : Z) :
  pageFits a l p = false →
  generateEmbed a l p = inl (ValidationError "Invalid string length").
Proof.
  unfold pageFits, generateEmbed.
  destruct (titleFits (embedTitle a l p)); [| done]. simpl.
  intros Hf. by rewrite addFields_refused.
Qed.

Lemma generateEmbed_inr (a : Arg.t) (l : list Parsed.t) (p : Z) (embed : Embed) :
  generateEmbed a l p = inr embed →
  pageFits a l p = true ∧ embed = pageEmbed a l p.
Proof.
  destruct (pageFits a l p) eqn:Hfit.
  - rewrite (generateEmbed_fits _ _ _ Hfit). by intros [= <-].
  - by rewrite (generateEmbed_refused _ _ _ Hfit).
Qed.




(** ** The filter *)

Lemma truthy_and (x y : value) : truthy (and x y) = truthy x && truthy y.
Proof. unfold and. destruct (truthy x) eqn:E; [done | by rewrite E]. Qed.

Lemma truthy_guard (o : option string) (p : string → bool) :
  truthy (guard o p) =
  match o with Some s => nonEmpty s && p s | None => false end.
Proof. destruct o as [s|]; [| done]. simpl. by destruct s. Qed.

(** The callback, as a conjunction of booleans. *)
Lemma keepEvent_unfold `{Host} (a : Arg.t) (event : Raw.event) :
  keepEvent a event =
  rbind (matchEventDate a event) (fun m =>
    inr (truthy (matchClassName a event)
         && truthy (matchLocationType a event)
         && truthy (matchEventHolder a event)
         && truthy m
         && truthy (matchDayOfWeek a event))).
Proof.
  unfold keepEvent. destruct (matchEventDate a event) as [e | m]; [done |].
  simpl. by rewrite !truthy_and.
Qed.

(** A refined callback keeps what the coarser one keeps and [q] accepts. *)
Lemma filterR_refine {A : Type} (p p' : A → result bool) (q : A → bool)
  (l r : list A) :
  (∀ x b, p x = inr b → ∃ b', p' x = inr b' ∧ b = b' && q x) →
  filterR p l = inr r →
  ∃ r', filterR p' l = inr r' ∧ r = List.filter q r'.
Proof.
  intros Hp. revert r. induction l as [|x l IH]; intros r; simpl.
  - intros [= <-]. by exists [].
  - destruct (p x) as [e | b] eqn:Ex; [done |]. simpl.
    destruct (filterR p l) as [e | r0] eqn:El; [done |]. simpl.
    intros [= <-].
    destruct (Hp _ _ Ex) as (b' & -> & ->).
    destruct (IH _ eq_refl) as (r' & -> & ->). simpl.
    eexists. split; [reflexivity |].
    destruct b'; simpl; [| done]. by destruct (q x).
Qed.

Lemma filterR_total {A : Type} (p : A → result bool) (l : list A) :
  (∀ x, x ∈ l → ∃ b, p x = inr b) → ∃ r, filterR p l = inr r.
Proof.
  induction l as [|x l IH]; intros Hp; simpl; [by eexists |].
  destruct (Hp x) as [b ->]; [left |]. simpl.
  destruct IH as [r ->]; [intros y Hy; apply Hp; by right |].
  simpl. by eexists.
Qed.

(** When nothing passes the callback, nothing is kept. *)
Lemma filterR_none {A : Type} (p : A → result bool) (l r : list A) :
  (∀ x b, p x = inr b → b = false) → filterR p l = inr r → r = [].
Proof.
  intros Hp. revert r. induction l as [|x l IH]; intros r; simpl.
  - by intros [= <-].
  - destruct (p x) as [e | b] eqn:Ex; [done |]. simpl.
    destruct (filterR p l) as [e | r0] eqn:El; [done |]. simpl.
    intros [= <-]. rewrite (Hp _ _ Ex). by apply IH.
Qed.

Lemma truthy_matchLocationType (a : Arg.t) (needle : string) (event : Raw.event) :
  (Arg.locationType a = "V" ∧ needle = "virtual")
  ∨ (Arg.locationType a = "IP" ∧ needle = "in person") →
  truthy (matchLocationType a event) = summaryHas needle event.
Proof.
  unfold matchLocationType, summaryHas.
  intros [[-> ->] | [-> ->]]; simpl; by rewrite truthy_guard.
Qed.

(** The date criterion on an event whose start has no date-time value. *)
Lemma matchEventDate_date_only `{Host} (a : Arg.t) (event : Raw.event)
  (t : Raw.time) :
  Arg.eventDate a ≠ "" →
  Raw.start event = Some t → Raw.dateTime t = None →
  ∃ e, matchEventDate a event = inl e.
Proof.
  intros Hd Hs Ht. unfold matchEventDate.
  apply nonEmpty_true in Hd. rewrite Hd, Hs, Ht. by eexists.
Qed.

(** Without a date criterion the filter returns. *)
Lemma filteredEvents_without_date `{Host} (a : Arg.t) (events : list Raw.event) :
  Arg.eventDate a = "" → ∃ l, filteredEvents a events = inr l.
Proof.
  intros Hd. apply filterR_total. intros event _.
  rewrite keepEvent_unfold. unfold matchEventDate. rewrite Hd. simpl.
  by eexists.
Qed.

(** With a date criterion, the filter returns when every start that is
    present holds a date-time value. *)
Lemma filteredEvents_with_dateTime `{Host} (a : Arg.t) (events : list Raw.event) :
  (∀ event t, event ∈ events → Raw.start event = Some t →
     is_Some (Raw.dateTime t)) →
  ∃ l, filteredEvents a events = inr l.
Proof.
  intros Hdt. apply filterR_total. intros event Hin.
  rewrite keepEvent_unfold. unfold matchEventDate.
  destruct (nonEmpty (Arg.eventDate a)); [| by eexists].
  destruct (Raw.start event) as [t |] eqn:Hs; [| by eexists].
  destruct (Hdt event t Hin Hs) as [dt ->]. by eexists.
Qed.

(** With a date criterion, one event whose start holds a date only makes
    the whole filter throw. *)
Lemma filteredEvents_date_only `{Host} (a : Arg.t) (events : list Raw.event)
  (event : Raw.event) (t : Raw.time) :
  Arg.eventDate a ≠ "" → event ∈ events →
  Raw.start event = Some t → Raw.dateTime t = None →
  ∃ e, filteredEvents a events = inl e.
Proof.
  intros Hd Hin Hs Ht.
  destruct (matchEventDate_date_only a event t Hd Hs Ht) as [e He].
  unfold filteredEvents.
  induction events as [|x rest IH]; [by apply elem_of_nil in Hin |].
  simpl. apply elem_of_cons in Hin as [<- | Hin].
  - unfold keepEvent. rewrite He. by eexists.
  - destruct (keepEvent a x) as [e' | b]; [by eexists |].
    destruct (IH Hin) as [e' ->]. by eexists.
Qed.

(** C3, as the code has it.  With the location-type criterion set to "V"
    (to "IP"), the filter keeps, among the events the other criteria keep,
    exactly those whose whole summary, lower-cased, contains "virtual"
    ("in person"). *)
Theorem location_filter_on_summary `{Host} (a : Arg.t) (needle : string)
  (events l : list Raw.event) :
  (Arg.locationType a = "V" ∧ needle = "virtual")
  ∨ (Arg.locationType a = "IP" ∧ needle = "in person") →
  filteredEvents a events = inr l →
  ∃ l', filteredEvents (withoutLocationType a) events = inr l'
      ∧ l = List.filter (summaryHas needle) l'.
Proof.
  intros Hlt. apply filterR_refine. intros event b.
  rewrite !keepEvent_unfold.
  change (matchEventDate (withoutLocationType a) event)
    with (matchEventDate a event).
  destruct (matchEventDate a event) as [e | m]; [done |]. simpl.
  intros [= <-]. eexists. split; [reflexivity |].
  rewrite (truthy_matchLocationType a needle event Hlt).
  change (matchClassName (withoutLocationType a) event)
    with (matchClassName a event).
  change (matchEventHolder (withoutLocationType a) event)
    with (matchEventHolder a event).
  change (matchDayOfWeek (withoutLocationType a) event)
    with (matchDayOfWeek a event).
  destruct (truthy (matchClassName a event)), (summaryHas needle event),
    (truthy (matchEventHolder a event)), (truthy m),
    (truthy (matchDayOfWeek a event)); done.
Qed.

Lemma location_filter_on_summary_witness :
  ((Arg.locationType (criteria "" "V" "" "" "") = "V" ∧ "virtual" = "virtual")
   ∨ (Arg.locationType (criteria "" "V" "" "" "") = "IP" ∧ "virtual" = "in person"))
  ∧ filteredEvents (host := sampleHost) (criteria "" "V" "" "" "") sevenEvents =
      inr [officeHours "e1" "cisc108-Smith-Virtual";
           officeHours "e3" "cisc210-Silber-Virtual";
           officeHours "e5" "cisc275-Bart-Virtual";
           officeHours "e7" "cisc375-Marrero-Virtual"]
  ∧ ∃ l', filteredEvents (host := sampleHost)
            (withoutLocationType (criteria "" "V" "" "" "")) sevenEvents = inr l'
      ∧ [officeHours "e1" "cisc108-Smith-Virtual";
         officeHours "e3" "cisc210-Silber-Virtual";
         officeHours "e5" "cisc275-Bart-Virtual";
         officeHours "e7" "cisc375-Marrero-Virtual"] =
        List.filter (summaryHas "virtual") l'.
Proof.
  split; [left; split; reflexivity |].
  split; [reflexivity |].
  apply (location_filter_on_summary (H := sampleHost)
           (criteria "" "V" "" "" "") "virtual" sevenEvents).
  - left; split; reflexivity.
  - reflexivity.
Defined.

(** C3 fails as stated.  An event whose third part is "Lab" is stored with
    [locationType] "IP", yet the criterion "IP" drops it; an event whose
    first part contains "Virtual" and whose third part is "In Person" is
    stored with [locationType] "IP", yet the criterion "V" keeps it. *)
Lemma location_filter_not_third_part :
  storedLocationType (H := sampleHost)
    (officeHours "e1" "cisc108-Smith-Lab") = Some "IP"
  ∧ filteredEvents (host := sampleHost) (criteria "" "IP" "" "" "")
      [officeHours "e1" "cisc108-Smith-Lab"] = inr []
  ∧ storedLocationType (H := sampleHost)
      (officeHours "e2" "Virtual Reality Club-Smith-In Person") = Some "IP"
  ∧ filteredEvents (host := sampleHost) (criteria "" "V" "" "" "")
      [officeHours "e2" "Virtual Reality Club-Smith-In Person"] =
    inr [officeHours "e2" "Virtual Reality Club-Smith-In Person"].
Proof. repeat split. Qed.

(** C4, as the code has it.  With a class name supplied, an event passes
    the class-name test exactly when its summary, lower-cased, contains the
    lower-cased class name somewhere; an event whose course code (the first
    part of the summary, trimmed) is the class name up to the case of
    letters therefore passes. *)
Theorem className_on_summary (a : Arg.t) (event : Raw.event) :
  Arg.className a ≠ "" →
  (truthy (matchClassName a event) = true ↔
     ∃ s pre post, Raw.summary event = Some s
       ∧ toLowerCase s = pre +:+ toLowerCase (Arg.className a) +:+ post)
  ∧ (∀ s, Raw.summary event = Some s →
       toLowerCase (trim (nth 0 (split "-" s) "")) = toLowerCase (Arg.className a) →
       truthy (matchClassName a event) = true).
Proof.
  intros Hcn. apply nonEmpty_true in Hcn.
  assert (Hiff : truthy (matchClassName a event) = true ↔
     ∃ s pre post, Raw.summary event = Some s
       ∧ toLowerCase s = pre +:+ toLowerCase (Arg.className a) +:+ post).
  { unfold matchClassName. rewrite Hcn, truthy_guard.
    destruct (Raw.summary event) as [s|]; split.
    - intros [_ Hi]%andb_true_iff. apply includes_inv in Hi as (pre & post & Hi).
      by exists s, pre, post.
    - intros (s' & pre & post & [= <-] & Hs).
      assert (Hi : includes (toLowerCase (Arg.className a)) (toLowerCase s) = true)
        by (rewrite Hs; apply includes_append).
      rewrite Hi, andb_true_r. rewrite <- (nonEmpty_toLowerCase s).
      apply (includes_nonEmpty _ _ (eq_trans (nonEmpty_toLowerCase _) Hcn) Hi).
    - done.
    - by intros (? & ? & ? & ? & _). }
  split; [exact Hiff |].
  intros s Hs Hcode. apply Hiff.
  destruct (split "-" s) as [|h t] eqn:E; [by destruct (split_not_nil "-" s) |].
  simpl in Hcode.
  destruct (split_head _ _ _ _ E) as [r ->].
  destruct (trim_part h) as (pre & post & Hh).
  exists (h +:+ r), (toLowerCase pre), (toLowerCase post +:+ toLowerCase r).
  split; [done |].
  rewrite <- Hcode. rewrite Hh at 1.
  by rewrite !toLowerCase_append, !append_assoc.
Qed.

Lemma className_on_summary_witness :
  Arg.className (criteria "CISC108" "" "" "" "") ≠ ""
  ∧ truthy (matchClassName (criteria "CISC108" "" "" "" "")
              (officeHours "e1" "cisc108-Smith-Virtual")) = true.
Proof.
  split; [done |].
  apply (className_on_summary (criteria "CISC108" "" "" "" "")
           (officeHours "e1" "cisc108-Smith-Virtual")); [done |].
  by exists "cisc108-Smith-Virtual", "", "-smith-virtual".
Defined.

(** C4 fails as stated.  The class name "cisc108" is found inside the
    longer code "cisc1080", and in the second part of a summary whose
    course code is "Review": both events pass the test and stay. *)
Lemma className_not_exact :
  truthy (matchClassName (criteria "cisc108" "" "" "" "")
            (officeHours "e1" "cisc1080-Smith-Lab")) = true
  ∧ toLowerCase (trim (nth 0 (split "-" "cisc1080-Smith-Lab") "")) ≠ "cisc108"
  ∧ truthy (matchClassName (criteria "cisc108" "" "" "" "")
              (officeHours "e2" "Review-for cisc108-Virtual")) = true
  ∧ toLowerCase (trim (nth 0 (split "-" "Review-for cisc108-Virtual") "")) ≠ "cisc108"
  ∧ filteredEvents (host := sampleHost) (criteria "cisc108" "" "" "" "")
      [officeHours "e1" "cisc1080-Smith-Lab";
       officeHours "e2" "Review-for cisc108-Virtual"] =
    inr [officeHours "e1" "cisc1080-Smith-Lab";
         officeHours "e2" "Review-for cisc108-Virtual"].
Proof. repeat split; done. Qed.

(** C5, on an all-day event.  With the date criterion "december 12" and an
    event whose start holds a date and no date-time, the callback of the
    filter throws a [TypeError]; [listEvents] catches it and the user is
    told that the retrieval failed. *)
Theorem eventDate_on_all_day_event_throws :
  filteredEvents (host := sampleHost) (criteria "" "" "" "december 12" "")
    [allDay "e1" "cisc108-Smith-Virtual" "2024-12-12" "2024-12-13"] =
  inl (TypeError "Cannot read properties of undefined (reading 'toLowerCase')")
  ∧ said (run (host := sampleHost)
            (fineWorld [allDay "e1" "cisc108-Smith-Virtual" "2024-12-12" "2024-12-13"])
            (onlyEventdate "december 12")).1 =
    [authenticating; retrievalFailed].
Proof. split; reflexivity. Qed.

(** ** The checks of [run] *)

Lemma dateRegex_spec (s : string) : dateRegex s = true ↔ monthAndDigits s.
Proof.
  unfold dateRegex, monthAndDigits. rewrite existsb_exists. split.
  - intros (m & Hm & Hs).
    destruct (stripPrefix (m +:+ " ") s) as [rest|] eqn:E; [| done].
    apply stripPrefix_spec in E. exists m, rest.
    split; [by apply list_elem_of_In |]. split; [done |].
    by rewrite E, append_assoc.
  - intros (m & d & Hm & Hd & ->). exists m.
    split; [by apply list_elem_of_In |].
    assert (stripPrefix (m +:+ " ") (m +:+ " " +:+ d) = Some d) as ->; [| done].
    apply stripPrefix_spec. by rewrite append_assoc.
Qed.

Lemma run_rejects `{Host} (w : World) (o : Options) (content : string) :
  connects w = true →
  validate (Arg.ofOptions o) = Some content →
  run w o = ([DbConnect; Reply content true], inr Done).
Proof. intros Hc Hv. unfold run, call. by rewrite Hc, Hv. Qed.

Lemma validate_eventDate (a : Arg.t) :
  validate (withoutEventDate a) = None →
  validate a =
  if nonEmpty (Arg.eventDate a) && negb (dateRegex (Arg.eventDate a))
  then Some invalidDate else None.
Proof.
  unfold validate, withoutEventDate. simpl.
  destruct (nonEmpty (Arg.className a) && _); [done |].
  by destruct (nonEmpty (Arg.locationType a) && _).
Qed.

(** C1, as the code has it.  With the other options well formed and the
    database connection open, a supplied [eventdate] passes the check when
    it is a lower-case month name, one space and one or two digits, whatever
    the number the digits make; otherwise the invocation ends with the
    format-error reply and the provider is not called. *)
Theorem eventdate_format_only `{Host} (w : World) (o : Options) (ed : string) :
  connects w = true →
  validate (withoutEventDate (Arg.ofOptions o)) = None →
  eventdate o = Some ed → ed ≠ "" →
  (monthAndDigits ed → validate (Arg.ofOptions o) = None)
  ∧ (¬ monthAndDigits ed →
       run w o = ([DbConnect; Reply invalidDate true], inr Done)).
Proof.
  intros Hc Hv Hed Hne. apply validate_eventDate in Hv.
  assert (Arg.eventDate (Arg.ofOptions o) = ed) as Ha by (simpl; by rewrite Hed).
  rewrite Ha in Hv. apply nonEmpty_true in Hne. rewrite Hne in Hv. simpl in Hv.
  split.
  - intros Hf%dateRegex_spec. by rewrite Hv, Hf.
  - intros Hf. apply run_rejects; [done |]. rewrite Hv.
    destruct (dateRegex ed) eqn:E; [| done]. by apply dateRegex_spec in E.
Qed.

Lemma eventdate_format_only_witness :
  run (host := sampleHost) (fineWorld sevenEvents) (onlyEventdate "dec 12") =
  ([DbConnect; Reply invalidDate true], inr Done).
Proof.
  apply (eventdate_format_only (H := sampleHost) (fineWorld sevenEvents)
           (onlyEventdate "dec 12") "dec 12"); [reflexivity .. | done |].
  intros Hf%dateRegex_spec. discriminate Hf.
Defined.

(** C1 fails as stated.  "december 32" passes the check: the provider is
    called, and what the user reads is that no event matches. *)
Lemma december_32_is_accepted :
  dateRegex "december 32" = true
  ∧ validate (Arg.ofOptions (onlyEventdate "december 32")) = None
  ∧ providerCalled (run (host := sampleHost) (fineWorld sevenEvents)
                      (onlyEventdate "december 32")).1 = true
  ∧ said (run (host := sampleHost) (fineWorld sevenEvents)
            (onlyEventdate "december 32")).1 = [authenticating; noMatch].
Proof. repeat split. Qed.

(** C6, as the code has it.  With the database connection open (the first
    thing [run] does), a malformed option ends the invocation with the
    matching rejection: nothing is written to the database, there is no
    authorisation and no query to the provider. *)
Theorem malformed_option_stops_after_connecting `{Host} (w : World) (o : Options) :
  connects w = true →
  malformed (Arg.ofOptions o) →
  ∃ content, content ∈ [invalidClassName; invalidLocationType; invalidDate]
    ∧ run w o = ([DbConnect; Reply content true], inr Done).
Proof.
  intros Hc Hm.
  assert (∃ content, content ∈ [invalidClassName; invalidLocationType; invalidDate]
            ∧ validate (Arg.ofOptions o) = Some content) as (content & Hin & Hv).
  { unfold validate.
    destruct (nonEmpty (Arg.className _) && _) eqn:E1.
    { eexists. split; [| done]. set_solver. }
    destruct (nonEmpty (Arg.locationType _) && _) eqn:E2.
    { eexists. split; [| done]. set_solver. }
    destruct (nonEmpty (Arg.eventDate _) && _) eqn:E3.
    { eexists. split; [| done]. set_solver. }
    exfalso. destruct Hm as [[Hn Hr] | [[Hn Hr] | [Hn Hr]]];
      apply nonEmpty_true in Hn; rewrite Hn in *; simpl in *.
    - by rewrite Hr in E1.
    - apply negb_false_iff, bool_decide_eq_true in E2. done.
    - by rewrite Hr in E3. }
  exists content. split; [done |]. by apply run_rejects.
Qed.

Lemma malformed_option_stops_after_connecting_witness :
  ∃ content, content ∈ [invalidClassName; invalidLocationType; invalidDate]
    ∧ run (host := sampleHost) (fineWorld sevenEvents) (onlyClassname "math101") =
      ([DbConnect; Reply content true], inr Done).
Proof.
  apply (malformed_option_stops_after_connecting (H := sampleHost)
           (fineWorld sevenEvents) (onlyClassname "math101")).
  - reflexivity.
  - left. split; [done | reflexivity].
Defined.

(** C6 fails as stated.  With the class name "math101" the rejection is
    sent, but the connection to the database was opened before. *)
Lemma rejection_after_database_connection :
  (run (host := sampleHost) (fineWorld sevenEvents) (onlyClassname "math101")).1 =
  [DbConnect; Reply invalidClassName true].
Proof. reflexivity. Qed.

(** ** The run of the command *)

Lemma said_app (t t' : list Effect) : said (t ++ t') = said t ++ said t'.
Proof. apply omap_app. Qed.

Lemma authorize_said (w : World) : said (authorize w).1 = [].
Proof.
  unfold authorize, call.
  by destruct (tokenSaved w), (consents w), (consentCredentials w),
    (credentialsRead w), (tokenWritten w).
Qed.

(** The loop over the fetched events goes through when every event has a
    summary, and says nothing to the user. *)
Lemma storeEvents_returns `{Host} (w : World) (events : list Raw.event) :
  (∀ event, event ∈ events → is_Some (Raw.summary event)) →
  ∃ ts, storeEvents w events = (ts, inr tt) ∧ said ts = [].
Proof.
  induction events as [|event rest IH]; intros Hs; [by exists [] |].
  destruct IH as (ts & Hts & Hsaid); [intros e He; apply Hs; by right |].
  destruct (Hs event) as [summary Hsum]; [left |].
  destruct (eventData_returns event summary Hsum) as (doc & Hdoc).
  simpl. unfold lift. rewrite Hdoc.
  destruct (upserts w doc) eqn:Hup.
  - exists (UpdateOne doc :: ts). split; [| done].
    unfold call. cbn. by rewrite Hts.
  - exists (UpdateOne doc :: ConsoleError :: ts). split; [| done].
    unfold call. cbn. by rewrite Hts.
Qed.

Lemma listEvents_noEvents `{Host} (w : World) (a : Arg.t) items :
  listing w = Some items → default [] items = [] →
  listEvents w a = ([EventsList; FollowUp noEvents], inr Done).
Proof. intros Hl He. unfold listEvents. rewrite Hl. cbn. by rewrite He. Qed.

Lemma listEvents_noMatch `{Host} (w : World) (a : Arg.t) events ts :
  listing w = Some (Some events) → events ≠ [] →
  storeEvents w events = (ts, inr tt) →
  filteredEvents a events = inr [] →
  listEvents w a = (EventsList :: ts ++ [FollowUp noMatch], inr Done).
Proof.
  intros Hl Hne Hst Hf.
  assert ((length events =? 0)%nat = false) as Hlen by (by destruct events).
  unfold listEvents, lift. rewrite Hl. cbn -[filteredEvents storeEvents].
  rewrite Hlen, Hst. cbn -[filteredEvents]. by rewrite Hf.
Qed.

Lemma run_lists `{Host} (w : World) (o : Options) tl out :
  connects w = true →
  validate (Arg.ofOptions o) = None →
  (authorize w).2 = inr tt →
  listEvents w (Arg.ofOptions o) = (tl, inr out) →
  run w o =
  (DbConnect :: Reply authenticating false :: (authorize w).1 ++ tl, inr out).
Proof.
  intros Hc Hv Ha Hl. unfold run, call. rewrite Hc, Hv.
  cbn -[listEvents authorize].
  destruct (authorize w) as [ta ra]. simpl in Ha. subst ra.
  cbn -[listEvents]. by rewrite Hl.
Qed.

Lemma said_run_lists (w : World) (tl : list Effect) :
  said (DbConnect :: Reply authenticating false :: (authorize w).1 ++ tl) =
  authenticating :: said tl.
Proof.
  change (said ([DbConnect; Reply authenticating false] ++ (authorize w).1 ++ tl)
          = authenticating :: said tl).
  by rewrite !said_app, authorize_said.
Qed.

(** C9.  With the options accepted, the database connected and the
    authorisation granted, the command returns normally in both empty
    cases and tells them apart: when the provider lists no event the user
    reads [noEvents]; when events were listed (each with a summary) and the
    filter keeps none of them the user reads [noMatch]. *)
Theorem empty_results_are_told_apart `{Host} (w : World) (o : Options) :
  connects w = true →
  validate (Arg.ofOptions o) = None →
  (authorize w).2 = inr tt →
  noEvents ≠ noMatch
  ∧ (∀ items, listing w = Some items → default [] items = [] →
       ∃ t, run w o = (t, inr Done) ∧ said t = [authenticating; noEvents])
  ∧ (∀ events, listing w = Some (Some events) → events ≠ [] →
       (∀ event, event ∈ events → is_Some (Raw.summary event)) →
       filteredEvents (Arg.ofOptions o) events = inr [] →
       ∃ t, run w o = (t, inr Done) ∧ said t = [authenticating; noMatch]).
Proof.
  intros Hc Hv Ha. split; [done |]. split.
  - intros items Hl He. eexists. split.
    + eapply run_lists; [done .. |]. by eapply listEvents_noEvents.
    + by rewrite said_run_lists.
  - intros events Hl Hne Hs Hf.
    destruct (storeEvents_returns w events Hs) as (ts & Hts & Hsaid).
    eexists. split.
    + eapply run_lists; [done .. |]. by eapply listEvents_noMatch.
    + rewrite said_run_lists.
      change (EventsList :: ts ++ [FollowUp noMatch])
        with ([EventsList] ++ ts ++ [FollowUp noMatch]).
      by rewrite !said_app, Hsaid.
Qed.

Lemma empty_results_are_told_apart_witness :
  (∃ t, run (host := sampleHost) (fineWorld []) noOptions = (t, inr Done)
        ∧ said t = [authenticating; noEvents])
  ∧ (∃ t, run (host := sampleHost) (fineWorld sevenEvents) (onlyClassname "cisc999")
          = (t, inr Done)
        ∧ said t = [authenticating; noMatch]).
Proof.
  split.
  - destruct (empty_results_are_told_apart (H := sampleHost) (fineWorld [])
                noOptions eq_refl eq_refl eq_refl) as (_ & Hnone & _).
    apply (Hnone (Some [])); reflexivity.
  - destruct (empty_results_are_told_apart (H := sampleHost)
                (fineWorld sevenEvents) (onlyClassname "cisc999")
                eq_refl eq_refl eq_refl) as (_ & _ & Hfiltered).
    apply (Hfiltered sevenEvents); [reflexivity | done | | reflexivity].
    intros event Hin. unfold sevenEvents in Hin.
    repeat (apply elem_of_cons in Hin as [-> | Hin]; [by eexists |]).
    by apply elem_of_nil in Hin.
Defined.

(** ** The weekday criterion *)

Lemma daysOfWeekMap_unknown (key : string) :
  key ∉ weekdayNames → daysOfWeekMap !! key = None.
Proof. intros Hk. by apply not_elem_of_list_to_map_1. Qed.

Lemma matchDayOfWeek_unknown `{Host} (a : Arg.t) (event : Raw.event) :
  Arg.dayOfWeek a ≠ "" → Arg.dayOfWeek a ∉ weekdayNames →
  matchDayOfWeek a event = VBool false.
Proof.
  intros Hne Hk. unfold matchDayOfWeek, daysOfWeekMapGet.
  apply nonEmpty_true in Hne. rewrite Hne, (daysOfWeekMap_unknown _ Hk).
  destruct (dateGetDay _), (bool_decide _); done.
Qed.

(** C10, as the code has it.  [dayofweek] is not checked: [validate] does
    not read it.  When the supplied string, lower-cased, is none of the
    seven names of [daysOfWeekMap], the weekday test is false on every
    event; so, once events were listed (each with a summary) and the filter
    has returned, the user reads [noMatch]. *)
Theorem unknown_weekday_matches_nothing `{Host} (w : World) (o : Options)
  (d : string) :
  dayofweek o = Some d → d ≠ "" → toLowerCase d ∉ weekdayNames →
  (∀ d', validate (Arg.ofOptions (withDayofweek d' o)) = validate (Arg.ofOptions o))
  ∧ (∀ event, matchDayOfWeek (Arg.ofOptions o) event = VBool false)
  ∧ (∀ events l,
       connects w = true →
       validate (Arg.ofOptions o) = None →
       (authorize w).2 = inr tt →
       listing w = Some (Some events) → events ≠ [] →
       (∀ event, event ∈ events → is_Some (Raw.summary event)) →
       filteredEvents (Arg.ofOptions o) events = inr l →
       ∃ t, run w o = (t, inr Done) ∧ said t = [authenticating; noMatch]).
Proof.
  intros Hd Hne Hk.
  assert (Hday : Arg.dayOfWeek (Arg.ofOptions o) = toLowerCase d)
    by (simpl; by rewrite Hd).
  assert (Hfalse : ∀ event, matchDayOfWeek (Arg.ofOptions o) event = VBool false).
  { intros event. apply matchDayOfWeek_unknown; rewrite Hday; [| done].
    apply nonEmpty_true. rewrite nonEmpty_toLowerCase. by apply nonEmpty_true. }
  split; [done |]. split; [done |].
  intros events l Hc Hv Ha Hl Hev Hs Hf.
  assert (l = []) as ->.
  { eapply filterR_none; [| exact Hf]. intros event b.
    rewrite keepEvent_unfold, Hfalse.
    destruct (matchEventDate _ event); [done |]. simpl.
    intros [= <-]. apply andb_false_r. }
  destruct (storeEvents_returns w events Hs) as (ts & Hts & Hsaid).
  eexists. split.
  - eapply run_lists; [done .. |]. by eapply listEvents_noMatch.
  - rewrite said_run_lists.
    change (EventsList :: ts ++ [FollowUp noMatch])
      with ([EventsList] ++ ts ++ [FollowUp noMatch]).
    by rewrite !said_app, Hsaid.
Qed.

Lemma unknown_weekday_matches_nothing_witness :
  matchDayOfWeek (host := sampleHost) (Arg.ofOptions (onlyDayofweek "Funday"))
    (officeHours "e1" "cisc108-Smith-Virtual") = VBool false
  ∧ ∃ t, run (host := sampleHost) (fineWorld sevenEvents) (onlyDayofweek "Funday")
         = (t, inr Done)
       ∧ said t = [authenticating; noMatch].
Proof.
  assert (Hd : "Funday" ≠ "") by done.
  assert (Hk : toLowerCase "Funday" ∉ weekdayNames) by compute_done.
  destruct (unknown_weekday_matches_nothing (H := sampleHost)
              (fineWorld sevenEvents) (onlyDayofweek "Funday") "Funday"
              eq_refl Hd Hk) as (_ & Hfalse & Hrun).
  split; [apply Hfalse |].
  apply (Hrun sevenEvents []); try reflexivity; [done |].
  intros event Hin. unfold sevenEvents in Hin.
  repeat (apply elem_of_cons in Hin as [-> | Hin]; [by eexists |]).
  by apply elem_of_nil in Hin.
Defined.

(** C10 fails as stated.  "Monday" is not one of the seven lower-case
    names, but [run] lower-cases the option before it reads the map: the
    weekday test is true on an event of Monday 9 December 2024, the events
    are kept and paged, and the user is not told that nothing matches.
    And with the unknown "Funday", when the provider lists no event, the
    user reads [noEvents], not [noMatch]. *)
Lemma monday_is_recognised :
  ("Monday" ∉ weekdayNames)
  ∧ matchDayOfWeek (host := sampleHost) (Arg.ofOptions (onlyDayofweek "Monday"))
      (officeHours "e1" "cisc108-Smith-Virtual") = VBool true
  ∧ filteredEvents (host := sampleHost) (Arg.ofOptions (onlyDayofweek "Monday"))
      sevenEvents = inr sevenEvents
  ∧ said (run (host := sampleHost) (fineWorld sevenEvents)
            (onlyDayofweek "Monday")).1 = [authenticating]
  ∧ said (run (host := sampleHost) (fineWorld [])
            (onlyDayofweek "Funday")).1 = [authenticating; noEvents].
Proof. split; [compute_done |]. repeat split. Qed.

(** ** The paging session *)

Lemma pageCount_positive (parsedEvents : list Parsed.t) :
  parsedEvents ≠ [] → 1 ≤ pageCount parsedEvents.
Proof.
  intros Hne. unfold pageCount, ceilDiv, EVENTS_PER_PAGE.
  assert (1 ≤ Z.of_nat (length parsedEvents))
    by (destruct parsedEvents; [done | simpl; lia]).
  apply Z.div_le_lower_bound; lia.
Qed.

(** The first row of buttons is the row [updateMessage] builds for page 0. *)
Lemma initialButtons_pageButtons (filtered : list Raw.event)
  (parsedEvents : list Parsed.t) :
  parsedEvents ≠ [] → length filtered = length parsedEvents →
  initialButtons filtered = pageButtons parsedEvents 0.
Proof.
  intros Hne Hlen. unfold initialButtons, pageButtons. rewrite Hlen.
  assert ((Z.of_nat (length parsedEvents) <=? EVENTS_PER_PAGE)
          = (0 =? pageCount parsedEvents - 1)) as ->; [| done].
  unfold pageCount, ceilDiv, EVENTS_PER_PAGE.
  assert (1 ≤ Z.of_nat (length parsedEvents))
    by (destruct parsedEvents; [done | simpl; lia]).
  pose proof (Z.div_mod (Z.of_nat (length parsedEvents) + 3 - 1) 3).
  pose proof (Z.mod_pos_bound (Z.of_nat (length parsedEvents) + 3 - 1) 3).
  destruct (Z.leb_spec (Z.of_nat (length parsedEvents)) 3),
    (Z.eqb_spec 0 ((Z.of_nat (length parsedEvents) + 3 - 1) / 3 - 1)); lia.
Qed.

Lemma enabled_pageButtons (parsedEvents : list Parsed.t) (s : Session) (id : string) :
  components (message s) = [pageButtons parsedEvents (currentPage s)] →
  enabled id s = true →
  (id = "prev" ∧ currentPage s ≠ 0)
  ∨ (id = "next" ∧ currentPage s ≠ pageCount parsedEvents - 1)
  ∨ id = "done".
Proof.
  intros Hc. unfold enabled. rewrite Hc.
  unfold pageButtons, button. cbn [existsb customId disabled negb].
  rewrite !orb_false_r, !andb_true_r.
  intros [H | [H | H]%orb_true_iff]%orb_true_iff.
  - apply andb_true_iff in H as [<-%String.eqb_eq Hp].
    left. split; [done |]. by apply negb_true_iff, Z.eqb_neq in Hp.
  - apply andb_true_iff in H as [<-%String.eqb_eq Hp].
    right; left. split; [done |]. by apply negb_true_iff, Z.eqb_neq in Hp.
  - apply String.eqb_eq in H as <-. by right; right.
Qed.

Lemma allPagesFit_page (a : Arg.t) (parsedEvents : list Parsed.t) (p : Z) :
  allPagesFit a parsedEvents = true → 0 ≤ p < pageCount parsedEvents →
  pageFits a parsedEvents p = true.
Proof.
  unfold allPagesFit. rewrite forallb_forall. intros Hall Hp.
  apply Hall, list_elem_of_In, elem_of_seqZ. lia.
Qed.

Lemma finalMessage_snoc (l : Live) (s : Session) (r : Request) :
  finalMessage {| session := s; pending := pending l ++ [r] |} =
  edit (payloadEmbed r) (payloadRows r)
    (finalMessage {| session := s; pending := pending l |}).
Proof. unfold finalMessage. simpl. rewrite foldl_app. reflexivity. Qed.

Lemma finalMessage_answer (l : Live) : finalMessage (answer l).1 = finalMessage l.
Proof.
  unfold answer, finalMessage. destruct (pending l) as [|r rest] eqn:E; simpl.
  - by rewrite E.
  - done.
Qed.

(** The listener run to its end is the listener between its awaits with
    the edits answered at once; so is the time limit. *)
Lemma deliver_press_answer (a : Arg.t) (parsedEvents : list Parsed.t)
  (id : string) (s : Session) :
  let p := press a parsedEvents id (quiet s) in
  let a1 := answer p.1 in
  let a2 := answer a1.1 in
  a2.1 = quiet (deliver a parsedEvents id s).1
  ∧ p.2 ++ a1.2 ++ a2.2 = (deliver a parsedEvents id s).2.
Proof.
  unfold press, deliver, onCollect, quiet. cbn [session pending].
  destruct s as [page m over]. cbn [ended currentPage message].
  destruct over; [done |].
  destruct (String.eqb id "done"); [done |].
  by destruct (updateMessage a parsedEvents (turnPage id page)) as [err | [embed buttons]].
Qed.

Lemma expire_timeout_answer (s : Session) :
  (answer (timeout (quiet s)).1).1 = quiet (expire s).1
  ∧ (timeout (quiet s)).2 ++ (answer (timeout (quiet s)).1).2 = (expire s).2.
Proof.
  unfold timeout, expire, quiet. cbn [session pending].
  destruct s as [page m over]. cbn [ended currentPage message].
  by destruct over.
Qed.

(** Pressed in turn, the buttons reach nothing that could not come about. *)
Lemma inTurn_reachable (a : Arg.t) (parsedEvents : list Parsed.t) (l0 l : Live) :
  inTurn a parsedEvents l0 l → reachable a parsedEvents l0 l.
Proof.
  induction 1; [apply reach_start | by apply reach_press
               | by apply reach_answer | by apply reach_timeout].
Qed.

Lemma liveInvariant_inTurn (a : Arg.t) (filtered : list Raw.event)
  (parsedEvents : list Parsed.t) (initialEmbed : Embed) (l : Live) :
  parsedEvents ≠ [] → length filtered = length parsedEvents →
  allPagesFit a parsedEvents = true →
  inTurn a parsedEvents (quiet (openSession initialEmbed filtered)) l →
  liveInvariant parsedEvents l.
Proof.
  intros Hne Hlen Hfit Hr.
  induction Hr as [| l id Hr [Hrange Hcomp] Hquiet Hen
                   | l Hr [Hrange Hcomp] | l Hr [Hrange Hcomp]].
  - split.
    + pose proof (pageCount_positive _ Hne). unfold pageInRange. simpl. lia.
    + unfold finalMessage. simpl.
      by rewrite (initialButtons_pageButtons _ _ Hne Hlen).
  - unfold finalMessage in Hcomp. rewrite Hquiet in Hcomp. simpl in Hcomp.
    unfold press. destruct (ended (session l)) eqn:He.
    { unfold enabled in Hen. by rewrite Hcomp in Hen. }
    unfold pageInRange in Hrange.
    destruct (enabled_pageButtons _ _ _ Hcomp Hen) as [[-> Hp] | [[-> Hp] | ->]].
    + assert (0 ≤ turnPage "prev" (currentPage (session l))
                < pageCount parsedEvents) as Hin by (unfold turnPage; simpl; lia).
      unfold updateMessage.
      rewrite (generateEmbed_fits _ _ _ (allPagesFit_page _ _ _ Hfit Hin)).
      cbn -[turnPage]. split.
      * unfold pageInRange. cbn -[turnPage]. lia.
      * rewrite finalMessage_snoc. cbn -[turnPage]. by rewrite ?He.
    + assert (0 ≤ turnPage "next" (currentPage (session l))
                < pageCount parsedEvents) as Hin by (unfold turnPage; simpl; lia).
      unfold updateMessage.
      rewrite (generateEmbed_fits _ _ _ (allPagesFit_page _ _ _ Hfit Hin)).
      cbn -[turnPage]. split.
      * unfold pageInRange. cbn -[turnPage]. lia.
      * rewrite finalMessage_snoc. cbn -[turnPage]. by rewrite ?He.
    + simpl. split; [done |]. unfold finalMessage. simpl.
      by rewrite Hquiet.
  - split.
    + unfold answer. by destruct (pending l).
    + rewrite finalMessage_answer. unfold answer. by destruct (pending l).
  - unfold timeout. destruct (ended (session l)) eqn:He.
    + split; [exact Hrange |]. simpl. by rewrite He.
    + split; [exact Hrange |]. cbn [fst]. by rewrite finalMessage_snoc.
Qed.




Lemma mapiR_length {A B : Type} (f : A → nat → result B) (i : nat)
  (l : list A) (r : list B) :
  mapiR f i l = inr r → length r = length l.
Proof.
  revert i r. induction l as [|x l IH]; intros i r; simpl.
  - by intros [= <-].
  - destruct (f x i); [done |]. simpl.
    destruct (mapiR f (S i) l) eqn:E; [done |]. simpl.
    intros [= <-]. simpl. f_equal. by eapply IH.
Qed.

(** The session [listEvents] returns is the one [openSession] describes,
    on a non-empty list of events and the embed of page 0. *)
Lemma listEvents_opens_session `{Host} (w : World) (a : Arg.t) t parsedEvents s :
  listEvents w a = (t, inr (Paging parsedEvents s)) →
  ∃ filtered initialEmbed, parsedEvents ≠ []
    ∧ length filtered = length parsedEvents
    ∧ generateEmbed a parsedEvents 0 = inr initialEmbed
    ∧ s = openSession initialEmbed filtered.
Proof.
  unfold listEvents, lift.
  destruct (listing w) as [items |]; [| done].
  cbn -[storeEvents filteredEvents parseEvents generateEmbed openSession].
  destruct (length (default [] items) =? 0)%nat; [done |].
  destruct (storeEvents w (default [] items)) as [ts [e | []]]; [done |].
  cbn -[filteredEvents parseEvents generateEmbed openSession].
  destruct (filteredEvents a (default [] items)) as [e | filtered]; [done |].
  cbn -[parseEvents generateEmbed openSession].
  destruct (length filtered =? 0)%nat eqn:Hlen; [done |].
  destruct (parseEvents filtered) as [e | parsed] eqn:Hp; [done |].
  cbn -[generateEmbed openSession].
  destruct (generateEmbed a parsed 0) as [e | initialEmbed] eqn:Hg; [done |].
  cbn -[openSession].
  intros [= _ <- <-]. exists filtered, initialEmbed.
  apply mapiR_length in Hp. split; [| done].
  destruct parsed; [| done]. destruct filtered; done.
Qed.

(** So is the session [run] returns: the sessions of the theorem above are
    those of the command. *)
Lemma run_opens_session `{Host} (w : World) (o : Options) t parsedEvents s :
  run w o = (t, inr (Paging parsedEvents s)) →
  ∃ filtered initialEmbed, parsedEvents ≠ []
    ∧ length filtered = length parsedEvents
    ∧ generateEmbed (Arg.ofOptions o) parsedEvents 0 = inr initialEmbed
    ∧ s = openSession initialEmbed filtered.
Proof.
  unfold run, call. destruct (connects w); [| done].
  cbn -[listEvents authorize].
  destruct (validate (Arg.ofOptions o)); [done |].
  destruct (authorize w) as [ta [e | []]]; cbn -[listEvents]; [done |].
  destruct (listEvents w (Arg.ofOptions o)) as [tl [e | out]] eqn:Hl;
    cbn; [done |].
  intros [= _ ->]. by eapply listEvents_opens_session.
Qed.

(** * Further properties of the commands *)

(** ** The checks, again *)

Lemma isDigit_lowerChar (c : ascii) : isDigit (lowerChar c) = isDigit c.
Proof. by destruct c as [[] [] [] [] [] [] [] []]. Qed.

Lemma toLowerCase_cons_inv (s t : string) (c : ascii) :
  toLowerCase s = String c t →
  ∃ x s', s = String x s' ∧ lowerChar x = c ∧ toLowerCase s' = t.
Proof. destruct s as [|x s']; [done |]. intros [= <- <-]. by exists x, s'. Qed.

Lemma toLowerCase_empty_inv (s : string) : toLowerCase s = "" → s = "".
Proof. by destruct s. Qed.

(** X1.  [classNameRegex] accepts exactly the strings of seven characters
    made of "cisc", in any case of letters, and three digits. *)
Theorem className_format (s : string) :
  classNameRegex s = true ↔
  ∃ p a b c, s = p +:+ String a (String b (String c ""))
    ∧ toLowerCase p = "cisc"
    ∧ isDigit a = true ∧ isDigit b = true ∧ isDigit c = true.
Proof.
  unfold classNameRegex. split.
  - destruct (stripPrefix "cisc" (toLowerCase s)) as [rest |] eqn:E; [| done].
    destruct rest as [|a' [|b' [|c' [|? ?]]]]; try done.
    intros [[Ha Hb]%andb_true_iff Hc]%andb_true_iff.
    apply stripPrefix_spec in E. simpl in E.
    apply toLowerCase_cons_inv in E as (x1 & s1 & -> & H1 & E).
    apply toLowerCase_cons_inv in E as (x2 & s2 & -> & H2 & E).
    apply toLowerCase_cons_inv in E as (x3 & s3 & -> & H3 & E).
    apply toLowerCase_cons_inv in E as (x4 & s4 & -> & H4 & E).
    apply toLowerCase_cons_inv in E as (a & s5 & -> & <- & E).
    apply toLowerCase_cons_inv in E as (b & s6 & -> & <- & E).
    apply toLowerCase_cons_inv in E as (c & s7 & -> & <- & E).
    apply toLowerCase_empty_inv in E as ->.
    rewrite isDigit_lowerChar in Ha, Hb, Hc.
    exists (String x1 (String x2 (String x3 (String x4 "")))), a, b, c.
    repeat split; try done. simpl. by rewrite H1, H2, H3, H4.
  - intros (p & a & b & c & -> & Hp & Ha & Hb & Hc).
    rewrite toLowerCase_append, Hp.
    assert (stripPrefix "cisc"
              ("cisc" +:+ toLowerCase (String a (String b (String c ""))))
            = Some (toLowerCase (String a (String b (String c ""))))) as ->
      by (by apply stripPrefix_spec).
    simpl. by rewrite !isDigit_lowerChar, Ha, Hb, Hc.
Qed.

(** ** The filter, again *)

Lemma filterR_pure {A : Type} (p : A → result bool) (q : A → bool) (l : list A) :
  (∀ x, p x = inr (q x)) → filterR p l = inr (List.filter q l).
Proof.
  intros Hp. induction l as [|x l IH]; [done |].
  simpl. rewrite Hp, IH. simpl. by destruct (q x).
Qed.

Lemma filterR_ext {A : Type} (p p' : A → result bool) (l : list A) :
  (∀ x, p x = p' x) → filterR p l = filterR p' l.
Proof.
  intros Hp. induction l as [|x l IH]; [done |]. simpl. by rewrite Hp, IH.
Qed.

(** X2.  The location type is read in any case of letters: when the only
    option is a [locationtype] that upper-cases to "V" (to "IP"), the
    checks pass and the filter keeps exactly the events whose summary,
    lower-cased, contains "virtual" ("in person"). *)
Theorem locationtype_any_case `{Host} (lt needle : string)
  (events : list Raw.event) :
  (toUpperCase lt = "V" ∧ needle = "virtual")
  ∨ (toUpperCase lt = "IP" ∧ needle = "in person") →
  validate (Arg.ofOptions (onlyLocationtype lt)) = None
  ∧ filteredEvents (Arg.ofOptions (onlyLocationtype lt)) events =
    inr (List.filter (summaryHas needle) events).
Proof.
  intros Hlt.
  assert (Ha : Arg.ofOptions (onlyLocationtype lt)
               = criteria "" (toUpperCase lt) "" "" "") by done.
  rewrite Ha. split.
  - by destruct Hlt as [[-> _] | [-> _]].
  - apply filterR_pure. intros event. rewrite keepEvent_unfold.
    rewrite (truthy_matchLocationType _ needle event) by done.
    by destruct (summaryHas needle event).
Qed.

Lemma locationtype_any_case_witness :
  validate (Arg.ofOptions (onlyLocationtype "v")) = None
  ∧ filteredEvents (host := sampleHost) (Arg.ofOptions (onlyLocationtype "v"))
      sevenEvents =
    inr (List.filter (summaryHas "virtual") sevenEvents).
Proof.
  apply (locationtype_any_case (H := sampleHost) "v" "virtual" sevenEvents).
  left. split; reflexivity.
Defined.

(** X3.  With no criterion (every option absent or empty) the filter
    returns the fetched events as they are, in their order, whether or not
    they have a summary or a start. *)
Theorem no_criteria_keeps_all `{Host} (a : Arg.t) (events : list Raw.event) :
  Arg.className a = "" → Arg.locationType a = "" → Arg.eventHolder a = "" →
  Arg.eventDate a = "" → Arg.dayOfWeek a = "" →
  filteredEvents a events = inr events.
Proof.
  intros Hcn Hlt Heh Hed Hdow.
  trans (@inr exn _ (List.filter (fun _ : Raw.event => true) events)).
  2: { f_equal. induction events as [|x l IH]; [done |]. simpl. by rewrite IH. }
  apply filterR_pure. intros event.
  unfold keepEvent, matchClassName, matchEventDate, matchDayOfWeek,
    matchLocationType, matchEventHolder.
  by rewrite Hcn, Hlt, Heh, Hed, Hdow.
Qed.

Lemma no_criteria_keeps_all_witness :
  filteredEvents (host := sampleHost) (Arg.ofOptions noOptions)
    (allDay "e0" "" "2024-12-12" "2024-12-13" :: sevenEvents) =
  inr (allDay "e0" "" "2024-12-12" "2024-12-13" :: sevenEvents).
Proof.
  apply (no_criteria_keeps_all (H := sampleHost) (Arg.ofOptions noOptions));
    reflexivity.
Defined.

(** X4.  When the filter returns, what it returns is the fetched list with
    some events left out (same order, nothing added), and the events that
    stay are exactly those on which the callback answers true. *)
Theorem filter_keeps_the_passing `{Host} (a : Arg.t) (events l : list Raw.event) :
  filteredEvents a events = inr l →
  sublist l events
  ∧ ∀ event, event ∈ l ↔ event ∈ events ∧ keepEvent a event = inr true.
Proof.
  unfold filteredEvents. revert l.
  induction events as [|x rest IH]; intros l; simpl.
  - intros [= <-]. split; [done |]. intros event. split.
    + by intros ?%elem_of_nil.
    + by intros [?%elem_of_nil _].
  - destruct (keepEvent a x) as [e | b] eqn:Ex; [done |]. simpl.
    destruct (filterR (keepEvent a) rest) as [e | r]; [done |]. simpl.
    intros [= <-]. destruct (IH r eq_refl) as [Hsub Hin].
    destruct b; split.
    + by apply sublist_skip.
    + intros event. rewrite !elem_of_cons, Hin. split.
      * intros [-> | [? ?]]; [by split; [left |] | by split; [right |]].
      * intros [[-> | ?] ?]; [by left | by right].
    + by apply sublist_cons.
    + intros event. rewrite elem_of_cons, Hin. split.
      * intros [? ?]. by split; [right |].
      * intros [[-> | ?] Hk]; [by rewrite Ex in Hk | done].
Qed.

Lemma filter_keeps_the_passing_witness :
  sublist [officeHours "e1" "cisc108-Smith-Virtual"] sevenEvents
  ∧ ∀ event, event ∈ [officeHours "e1" "cisc108-Smith-Virtual"] ↔
      event ∈ sevenEvents
      ∧ keepEvent (host := sampleHost) (criteria "cisc108" "" "" "" "") event
        = inr true.
Proof.
  apply (filter_keeps_the_passing (H := sampleHost)
           (criteria "cisc108" "" "" "" "") sevenEvents).
  reflexivity.
Defined.

(** X5.  The class-name criterion and the event-holder criterion are the
    same test on the summary: exchanging the two values does not change
    what the filter returns. *)
Theorem classname_and_holder_exchange `{Host} (cn lt eh ed dow : string)
  (events : list Raw.event) :
  filteredEvents (criteria cn lt eh ed dow) events =
  filteredEvents (criteria eh lt cn ed dow) events.
Proof.
  apply filterR_ext. intros event. rewrite !keepEvent_unfold.
  change (matchEventDate (criteria eh lt cn ed dow) event)
    with (matchEventDate (criteria cn lt eh ed dow) event).
  destruct (matchEventDate (criteria cn lt eh ed dow) event) as [e | m]; [done |].
  simpl. f_equal.
  change (matchClassName (criteria eh lt cn ed dow) event)
    with (matchEventHolder (criteria cn lt eh ed dow) event).
  change (matchEventHolder (criteria eh lt cn ed dow) event)
    with (matchClassName (criteria cn lt eh ed dow) event).
  change (matchLocationType (criteria eh lt cn ed dow) event)
    with (matchLocationType (criteria cn lt eh ed dow) event).
  change (matchDayOfWeek (criteria eh lt cn ed dow) event)
    with (matchDayOfWeek (criteria cn lt eh ed dow) event).
  destruct (truthy (matchClassName _ event)), (truthy (matchLocationType _ event)),
    (truthy (matchEventHolder _ event)); done.
Qed.

(** ** Storing the fetched events *)

Lemma upserted_app (t t' : list Effect) :
  upserted (t ++ t') = upserted t ++ upserted t'.
Proof. apply omap_app. Qed.

Lemma logged_app (t t' : list Effect) : logged (t ++ t') = (logged t + logged t')%nat.
Proof. unfold logged. by rewrite List.filter_app, length_app. Qed.

Lemma authorize_upserted (w : World) : upserted (authorize w).1 = [].
Proof.
  unfold authorize, call.
  by destruct (tokenSaved w), (consents w), (consentCredentials w),
    (credentialsRead w), (tokenWritten w).
Qed.

(** One turn of the loop on an event that has a summary. *)
Lemma storeEvents_cons `{Host} (w : World) (event : Raw.event)
  (rest : list Raw.event) (doc : Event) :
  eventData event = inr doc →
  storeEvents w (event :: rest) =
  let '(ts, r) := storeEvents w rest in
  (UpdateOne doc :: (if upserts w doc then [] else [ConsoleError]) ++ ts, r).
Proof.
  intros Hdoc. simpl. unfold lift, call. rewrite Hdoc.
  destruct (upserts w doc); cbn; by destruct (storeEvents w rest).
Qed.

(** X6.  When every fetched event has a summary, the loop hands each event
    to the database once, in the order of the listing, as the document
    [eventData] builds for it, whatever the database answers: a failed
    write is logged (one log for each) and the loop goes on to the end. *)
Theorem every_event_is_stored `{Host} (w : World) (events : list Raw.event) :
  (∀ event, event ∈ events → is_Some (Raw.summary event)) →
  ∃ ts docs, storeEvents w events = (ts, inr tt)
    ∧ Forall2 (fun event doc => eventData event = inr doc) events docs
    ∧ upserted ts = docs
    ∧ logged ts = length (List.filter (fun doc => negb (upserts w doc)) docs).
Proof.
  induction events as [|event rest IH]; intros Hs.
  - by exists [], [].
  - destruct IH as (ts & docs & Hts & Hdocs & Hup & Hlog);
      [intros e He; apply Hs; by right |].
    destruct (Hs event) as [summary Hsum]; [left |].
    destruct (eventData_returns event summary Hsum) as (doc & Hdoc).
    rewrite (storeEvents_cons w event rest doc Hdoc), Hts.
    eexists _, (doc :: docs). split; [reflexivity |].
    split; [by constructor |]. split.
    + change (UpdateOne doc :: ?x ++ ts) with ([UpdateOne doc] ++ x ++ ts).
      rewrite !upserted_app, Hup. by destruct (upserts w doc).
    + change (UpdateOne doc :: ?x ++ ts) with ([UpdateOne doc] ++ x ++ ts).
      rewrite !logged_app, Hlog. simpl. by destruct (upserts w doc).
Qed.

Lemma every_event_is_stored_witness :
  ∃ ts docs,
    storeEvents (host := sampleHost) (fineWorld sevenEvents) sevenEvents = (ts, inr tt)
    ∧ Forall2 (fun event doc => eventData (host := sampleHost) event = inr doc)
        sevenEvents docs
    ∧ upserted ts = docs
    ∧ logged ts =
        length (List.filter (fun doc => negb (upserts (fineWorld sevenEvents) doc)) docs).
Proof.
  apply (every_event_is_stored (H := sampleHost) (fineWorld sevenEvents) sevenEvents).
  intros event Hin. unfold sevenEvents in Hin.
  repeat (apply elem_of_cons in Hin as [-> | Hin]; [by eexists |]).
  by apply elem_of_nil in Hin.
Defined.

(** The loop stops at the first event without summary. *)
Lemma storeEvents_stops `{Host} (w : World) (pre post : list Raw.event)
  (event : Raw.event) :
  (∀ e, e ∈ pre → is_Some (Raw.summary e)) →
  Raw.summary event = None →
  ∃ ts e, storeEvents w (pre ++ event :: post) = (ts, inl e)
    ∧ said ts = [] ∧ length (upserted ts) = length pre.
Proof.
  intros Hpre Hnone. induction pre as [|x pre IH].
  - exists [], (JS.TypeError "Cannot read properties of undefined (reading 'split')").
    simpl. unfold lift, eventData. by rewrite Hnone.
  - destruct IH as (ts & e & Hts & Hsaid & Hlen);
      [intros y Hy; apply Hpre; by right |].
    destruct (Hpre x) as [summary Hsum]; [left |].
    destruct (eventData_returns x summary Hsum) as (doc & Hdoc).
    change ((x :: pre) ++ event :: post) with (x :: (pre ++ event :: post)).
    rewrite (storeEvents_cons w x _ doc Hdoc), Hts.
    eexists _, e. split; [reflexivity |].
    change (UpdateOne doc :: ?y ++ ts) with ([UpdateOne doc] ++ y ++ ts).
    rewrite !said_app, !upserted_app, Hsaid, !length_app, Hlen.
    by destruct (upserts w doc).
Qed.

(** X7.  An event without summary stops the invocation: the events listed
    before it are handed to the database, the events after it are not, the
    filter does not run, and the user reads that the retrieval failed. *)
Theorem event_without_summary_stops_the_run `{Host} (w : World) (o : Options)
  (pre post : list Raw.event) (event : Raw.event) :
  connects w = true →
  validate (Arg.ofOptions o) = None →
  (authorize w).2 = inr tt →
  listing w = Some (Some (pre ++ event :: post)) →
  (∀ e, e ∈ pre → is_Some (Raw.summary e)) →
  Raw.summary event = None →
  ∃ t, run w o = (t, inr Done)
    ∧ said t = [authenticating; retrievalFailed]
    ∧ length (upserted t) = length pre.
Proof.
  intros Hc Hv Ha Hl Hpre Hnone.
  destruct (storeEvents_stops w pre post event Hpre Hnone)
    as (ts & e & Hts & Hsaid & Hlen).
  assert (Hlist : listEvents w (Arg.ofOptions o) =
            (EventsList :: ts ++ [ConsoleError; FollowUp retrievalFailed], inr Done)).
  { assert ((length (pre ++ event :: post) =? 0)%nat = false) as Hne
      by (rewrite length_app; simpl; apply Nat.eqb_neq; lia).
    unfold listEvents, lift. rewrite Hl. cbn -[filteredEvents storeEvents].
    by rewrite Hne, Hts. }
  eexists. split; [by eapply run_lists |]. split.
  - rewrite said_run_lists.
    change (EventsList :: ts ++ ?y) with ([EventsList] ++ ts ++ y).
    by rewrite !said_app, Hsaid.
  - change (DbConnect :: Reply authenticating false :: (authorize w).1 ++ ?y)
      with ([DbConnect; Reply authenticating false] ++ (authorize w).1 ++ y).
    change (EventsList :: ts ++ ?y) with ([EventsList] ++ ts ++ y).
    by rewrite !upserted_app, authorize_upserted, !length_app, Hlen.
Qed.

Lemma event_without_summary_stops_the_run_witness :
  ∃ t, run (host := sampleHost)
         (fineWorld ([officeHours "e1" "cisc108-Smith-Virtual"]
                     ++ {| Raw.id := "e2"; Raw.summary := None; Raw.start := None;
                           Raw.end_ := None; Raw.location := None |}
                        :: [officeHours "e3" "cisc210-Silber-Virtual"]))
         noOptions = (t, inr Done)
    ∧ said t = [authenticating; retrievalFailed]
    ∧ length (upserted t) = length [officeHours "e1" "cisc108-Smith-Virtual"].
Proof.
  apply (event_without_summary_stops_the_run (H := sampleHost) _ noOptions
           [officeHours "e1" "cisc108-Smith-Virtual"]
           [officeHours "e3" "cisc210-Silber-Virtual"]
           {| Raw.id := "e2"; Raw.summary := None; Raw.start := None;
              Raw.end_ := None; Raw.location := None |}); try reflexivity.
  intros e ->%list_elem_of_singleton. by eexists.
Defined.

(** ** The answers of [run] *)

Lemma storeEvents_said `{Host} (w : World) (events : list Raw.event) :
  said (storeEvents w events).1 = [].
Proof.
  induction events as [|event rest IH]; [done |].
  destruct (eventData event) as [e | doc] eqn:Hdoc.
  - simpl. unfold lift. by rewrite Hdoc.
  - rewrite (storeEvents_cons w event rest doc Hdoc).
    destruct (storeEvents w rest) as [ts r]. simpl in *.
    change (UpdateOne doc :: ?y ++ ts) with ([UpdateOne doc] ++ y ++ ts).
    rewrite !said_app, IH. by destruct (upserts w doc).
Qed.


(** [listEvents] catches what is thrown inside it: it returns, and it has
    told the user why when it does not open a session. *)
Lemma listEvents_answers `{Host} (w : World) (a : Arg.t) :
  ∃ tl out, listEvents w a = (EventsList :: tl, inr out)
    ∧ ((out = Done
        ∧ ∃ m, m ∈ [noEvents; noMatch; retrievalFailed] ∧ said tl = [m])
       ∨ (∃ parsedEvents s, out = Paging parsedEvents s) ∧ said tl = []).
Proof.
  unfold listEvents, lift.
  destruct (listing w) as [items |].
  2: { eexists _, _. split; [reflexivity |]. left. split; [done |].
       exists retrievalFailed. split; [set_solver | done]. }
  cbn -[storeEvents filteredEvents parseEvents generateEmbed openSession].
  destruct (length (default [] items) =? 0)%nat.
  { eexists _, _. split; [reflexivity |]. left. split; [done |].
    exists noEvents. split; [set_solver | done]. }
  pose proof (storeEvents_said w (default [] items)) as Hsaid.
  destruct (storeEvents w (default [] items)) as [ts [e | []]]; simpl in Hsaid.
  { eexists _, _. split; [reflexivity |]. left. split; [done |].
    exists retrievalFailed. split; [set_solver |]. by rewrite said_app, Hsaid. }
  cbn -[filteredEvents parseEvents generateEmbed openSession].
  destruct (filteredEvents a (default [] items)) as [e | filtered].
  { eexists _, _. split; [reflexivity |]. left. split; [done |].
    exists retrievalFailed. split; [set_solver |].
    by rewrite !said_app, Hsaid. }
  cbn -[parseEvents generateEmbed openSession].
  destruct (length filtered =? 0)%nat.
  { eexists _, _. split; [reflexivity |]. left. split; [done |].
    exists noMatch. split; [set_solver |]. by rewrite !said_app, Hsaid. }
  destruct (parseEvents filtered) as [e | parsed].
  { eexists _, _. split; [reflexivity |]. left. split; [done |].
    exists retrievalFailed. split; [set_solver |].
    by rewrite !said_app, Hsaid. }
  cbn -[generateEmbed openSession].
  destruct (generateEmbed a parsed 0) as [e | initialEmbed].
  { eexists _, _. split; [reflexivity |]. left. split; [done |].
    exists retrievalFailed. split; [set_solver |].
    by rewrite !said_app, Hsaid. }
  cbn -[openSession].
  eexists _, _. split; [reflexivity |]. right. split; [by eexists _, _ |].
  by rewrite !said_app, Hsaid.
Qed.



Lemma authorize_no_listing (w : World) : providerCalled (authorize w).1 = false.
Proof.
  unfold authorize, call.
  by destruct (tokenSaved w), (consents w), (consentCredentials w),
    (credentialsRead w), (tokenWritten w).
Qed.

Lemma providerCalled_app (t t' : list Effect) :
  providerCalled (t ++ t') = providerCalled t || providerCalled t'.
Proof. apply existsb_app. Qed.

(** X9.  The provider is asked for the events exactly when the database is
    connected, the three checks pass and the authorisation succeeds. *)
Theorem provider_called_iff `{Host} (w : World) (o : Options) :
  providerCalled (run w o).1 = true ↔
  connects w = true ∧ validate (Arg.ofOptions o) = None
  ∧ (authorize w).2 = inr tt.
Proof.
  unfold run, call. destruct (connects w); [| by split; [| intros [? _]]].
  cbn -[listEvents authorize].
  destruct (validate (Arg.ofOptions o)) as [content |];
    [by split; [| intros (_ & ? & _)] |].
  pose proof (authorize_no_listing w) as Hauth.
  destruct (authorize w) as [ta [e | []]]; simpl in Hauth; cbn -[listEvents].
  - split; [intros Hp | by intros (_ & _ & ?)].
    change (providerCalled ([DbConnect; Reply authenticating false] ++ ta
              ++ [ConsoleError; FollowUp runFailed]) = true) in Hp.
    by rewrite !providerCalled_app, Hauth in Hp.
  - split; [done |]. intros _.
    destruct (listEvents_answers w (Arg.ofOptions o)) as (tl & out & -> & _).
    cbn.
    change (providerCalled ([DbConnect; Reply authenticating false] ++ ta
              ++ [EventsList] ++ tl) = true).
    rewrite !providerCalled_app. simpl. by rewrite orb_true_r.
Qed.

(** ** The pages *)

Lemma pageCount_lt (l : list Parsed.t) (i : nat) :
  Z.of_nat i < pageCount l ↔ (3 * i < length l)%nat.
Proof.
  unfold pageCount, ceilDiv, EVENTS_PER_PAGE.
  pose proof (Z.div_mod (Z.of_nat (length l) + 3 - 1) 3).
  pose proof (Z.mod_pos_bound (Z.of_nat (length l) + 3 - 1) 3).
  lia.
Qed.

(** X10.  Every page within range shows at least one event and at most
    three, and every page before the last shows three. *)
Theorem page_sizes (l : list Parsed.t) (p : Z) :
  0 ≤ p < pageCount l →
  (1 ≤ length (pageOf l p) ≤ 3)%nat
  ∧ (p < pageCount l - 1 → length (pageOf l p) = 3%nat).
Proof.
  intros [Hlo Hhi].
  rewrite <- (Z2Nat.id p) in * by done. set (i := Z.to_nat p) in *.
  rewrite pageOf_nat, length_take, length_drop.
  apply pageCount_lt in Hhi. split; [lia |].
  intros Hlast.
  assert (Z.of_nat (S i) < pageCount l) as Hnext%pageCount_lt by lia. lia.
Qed.

Lemma page_sizes_witness :
  (1 ≤ length (pageOf sevenParsed 2) ≤ 3)%nat
  ∧ (2 < pageCount sevenParsed - 1 → length (pageOf sevenParsed 2) = 3%nat).
Proof. apply (page_sizes sevenParsed 2). split; [lia | reflexivity]. Defined.

(** X11.  The event of rank [j] in the list (counting from 0) is shown on
    page [j / 3], at place [j mod 3], under the number [j + 1], when
    [EmbedBuilder] takes that page. *)
Theorem every_event_has_its_page (a : Arg.t) (l : list Parsed.t) (j : nat)
  (e : Parsed.t) :
  l !! j = Some e →
  pageFits a l (Z.of_nat (j / 3)) = true →
  ∃ embed f, generateEmbed a l (Z.of_nat (j / 3)) = inr embed
    ∧ fields embed !! (j mod 3)%nat = Some f
    ∧ fieldName f = "Event " +:+ showZ (Z.of_nat j + 1) +:+ ": " +:+ Parsed.name e
    ∧ fieldValue f = fieldValue (embedField 0 0 e).
Proof.
  intros Hj Hfit. pose proof (Nat.div_mod_eq j 3) as Hdm.
  assert (j mod 3 < 3)%nat by (by apply Nat.mod_upper_bound).
  exists (pageEmbed a l (Z.of_nat (j / 3))),
    (embedField (Z.of_nat (j / 3)) (j mod 3) e).
  split; [by apply generateEmbed_fits |]. split.
  - unfold pageEmbed. cbn [fields].
    rewrite list_lookup_imap, pageOf_nat, lookup_take.
    rewrite lookup_drop, <- Hdm, Hj. by destruct (decide _).
  - unfold embedField, EVENTS_PER_PAGE. cbn [fieldName fieldValue].
    split; [| done]. do 3 f_equal. lia.
Qed.

Lemma every_event_has_its_page_witness :
  ∃ embed f,
    generateEmbed (criteria "" "" "" "" "") sevenParsed (Z.of_nat (4 / 3))
      = inr embed
    ∧ fields embed !! (4 mod 3)%nat = Some f
    ∧ fieldName f = "Event " +:+ showZ (Z.of_nat 4 + 1) +:+ ": " +:+ "cisc275"
    ∧ fieldValue f =
        fieldValue (embedField 0 0
          {| Parsed.name := "cisc275"; Parsed.eventHolder := Some "Bart";
             Parsed.eventType := Some "Virtual";
             Parsed.start := "December 9 at 10:00 AM EST";
             Parsed.end_ := "December 9 at 11:00 AM EST";
             Parsed.location := "`NONE`" |}).
Proof.
  apply (every_event_has_its_page (criteria "" "" "" "" "") sevenParsed 4
           {| Parsed.name := "cisc275"; Parsed.eventHolder := Some "Bart";
              Parsed.eventType := Some "Virtual";
              Parsed.start := "December 9 at 10:00 AM EST";
              Parsed.end_ := "December 9 at 11:00 AM EST";
              Parsed.location := "`NONE`" |}); reflexivity.
Defined.

(** X12.  A page index at or beyond the number of pages, and the index -1,
    have no event: [generateEmbed] returns an embed with the title of that
    index and no field, or throws when the title is too long. *)
Theorem pages_out_of_range (a : Arg.t) (l : list Parsed.t) (p : Z) :
  pageCount l ≤ p ∨ p = -1 →
  pageOf l p = []
  ∧ generateEmbed a l p =
      if titleFits (embedTitle a l p)
      then inr {| color := "Green"; title := embedTitle a l p; fields := [] |}
      else inl (ValidationError "Invalid string length").
Proof.
  intros Hp.
  assert (pageOf l p = []) as Hnil;
    [| by unfold generateEmbed; rewrite Hnil].
  destruct Hp as [Hp | ->].
  - destruct (pageCount_covers l) as [Hpos _].
    rewrite <- (Z2Nat.id p) in * by lia. set (i := Z.to_nat p) in *.
    rewrite pageOf_nat.
    assert (¬ (3 * i < length l)%nat) by (rewrite <- pageCount_lt; lia).
    rewrite drop_ge by lia. done.
  - unfold pageOf, slice, relIndex, EVENTS_PER_PAGE. simpl.
    replace (Z.to_nat _) with 0%nat by lia. done.
Qed.

Lemma pages_out_of_range_witness :
  pageOf sevenParsed 3 = []
  ∧ generateEmbed (criteria "" "" "" "" "") sevenParsed 3 =
      inr {| color := "Green"; title := "Upcoming Events  () (Page 4 of 3)";
             fields := [] |}.
Proof.
  destruct (pages_out_of_range (criteria "" "" "" "" "") sevenParsed 3)
    as [Hslice Hembed]; [left; by vm_compute |].
  split; [exact Hslice | exact Hembed].
Defined.

(** ** The session, again *)

Lemma shown_embed_inTurn (a : Arg.t) (filtered : list Raw.event)
  (parsedEvents : list Parsed.t) (initialEmbed : Embed) (l : Live) :
  parsedEvents ≠ [] → length filtered = length parsedEvents →
  allPagesFit a parsedEvents = true →
  generateEmbed a parsedEvents 0 = inr initialEmbed →
  inTurn a parsedEvents (quiet (openSession initialEmbed filtered)) l →
  embeds (finalMessage l) = [pageEmbed a parsedEvents (currentPage (session l))].
Proof.
  intros Hne Hlen Hfit Hfirst Hr.
  induction Hr as [| l id Hr IH Hquiet Hen | l Hr IH | l Hr IH].
  - apply generateEmbed_inr in Hfirst as [_ ->]. done.
  - destruct (liveInvariant_inTurn a filtered parsedEvents initialEmbed l
                Hne Hlen Hfit Hr) as [Hrange Hcomp].
    unfold finalMessage in Hcomp, IH. rewrite Hquiet in Hcomp, IH.
    simpl in Hcomp, IH.
    unfold press. destruct (ended (session l)) eqn:He.
    { unfold enabled in Hen. by rewrite Hcomp in Hen. }
    unfold pageInRange in Hrange.
    destruct (enabled_pageButtons _ _ _ Hcomp Hen) as [[-> Hp] | [[-> Hp] | ->]].
    + assert (0 ≤ turnPage "prev" (currentPage (session l))
                < pageCount parsedEvents) as Hin by (unfold turnPage; simpl; lia).
      unfold updateMessage.
      rewrite (generateEmbed_fits _ _ _ (allPagesFit_page _ _ _ Hfit Hin)).
      cbn -[turnPage finalMessage]. by rewrite finalMessage_snoc.
    + assert (0 ≤ turnPage "next" (currentPage (session l))
                < pageCount parsedEvents) as Hin by (unfold turnPage; simpl; lia).
      unfold updateMessage.
      rewrite (generateEmbed_fits _ _ _ (allPagesFit_page _ _ _ Hfit Hin)).
      cbn -[turnPage finalMessage]. by rewrite finalMessage_snoc.
    + simpl. unfold finalMessage. simpl. by rewrite Hquiet.
  - rewrite finalMessage_answer. unfold answer.
    by destruct (pending l).
  - unfold timeout. destruct (ended (session l)); [done |].
    cbn [fst]. by rewrite finalMessage_snoc.
Qed.

(** X13.  On a list of events every page of which [EmbedBuilder] takes,
    with the buttons pressed in turn, the embed on the message is the page
    of the current index whenever no edit is under way: closing the session
    leaves the last page on the message. *)
Theorem message_shows_current_page (a : Arg.t) (filtered : list Raw.event)
  (parsedEvents : list Parsed.t) (initialEmbed : Embed) (l : Live) :
  parsedEvents ≠ [] → length filtered = length parsedEvents →
  allPagesFit a parsedEvents = true →
  generateEmbed a parsedEvents 0 = inr initialEmbed →
  inTurn a parsedEvents (quiet (openSession initialEmbed filtered)) l →
  pending l = [] →
  ∃ embed,
    generateEmbed a parsedEvents (currentPage (session l)) = inr embed
    ∧ embeds (message (session l)) = [embed].
Proof.
  intros Hne Hlen Hfit Hfirst Hr Hquiet.
  destruct (liveInvariant_inTurn a filtered parsedEvents initialEmbed l
              Hne Hlen Hfit Hr) as [[Hlo Hhi] _].
  pose proof (shown_embed_inTurn a filtered parsedEvents initialEmbed l
                Hne Hlen Hfit Hfirst Hr) as Hshown.
  unfold finalMessage in Hshown. rewrite Hquiet in Hshown. simpl in Hshown.
  exists (pageEmbed a parsedEvents (currentPage (session l))).
  split; [| done].
  apply generateEmbed_fits, allPagesFit_page; [done | lia].
Qed.

Lemma message_shows_current_page_witness :
  ∃ embed,
    generateEmbed (criteria "" "" "" "" "") sevenParsed
      (currentPage (session lastPageLive)) = inr embed
    ∧ embeds (message (session lastPageLive)) = [embed].
Proof.
  apply (message_shows_current_page (criteria "" "" "" "" "") sevenEvents
           sevenParsed firstEmbed);
    [done | reflexivity | reflexivity | reflexivity | | reflexivity].
  unfold lastPageLive, nextAnswered.
  apply turn_answer, turn_press; [| reflexivity | reflexivity].
  apply turn_answer, turn_press; [| reflexivity | reflexivity].
  apply turn_start.
Defined.




(** ** The weekday criterion, again *)

(** X15.  A [dayofweek] that is, in any case of letters, the name of rank
    [i] in Sunday, Monday, ..., Saturday keeps an event exactly when the
    host's [getDay] of its start (the date-time value, or else the date) is
    [i]; an event whose start is missing or does not parse is dropped. *)
Theorem weekday_by_number `{Host} (o : Options) (d : string) (i : nat)
  (event : Raw.event) :
  dayofweek o = Some d →
  weekdayNames !! i = Some (toLowerCase d) →
  truthy (matchDayOfWeek (Arg.ofOptions o) event) =
  bool_decide (dateGetDay (instant (Raw.start event)) = Some (Z.of_nat i)).
Proof.
  intros Hd Hi. unfold matchDayOfWeek.
  assert (Arg.dayOfWeek (Arg.ofOptions o) = toLowerCase d) as ->
    by (simpl; by rewrite Hd).
  assert (∀ n, strictEq (dateGetDay (instant (Raw.start event))) (PNumber n)
               = bool_decide (dateGetDay (instant (Raw.start event)) = Some n))
    as Heq.
  { intros n. destruct (dateGetDay _) as [x |]; unfold strictEq;
      case_bool_decide as Hb; try done.
    - injection Hb as ->. apply Z.eqb_refl.
    - apply Z.eqb_neq. congruence. }
  do 7 (destruct i as [|i]; [injection Hi as <-; apply Heq |]).
  done.
Qed.

Lemma weekday_by_number_witness :
  truthy (matchDayOfWeek (host := sampleHost) (Arg.ofOptions (onlyDayofweek "Tuesday"))
            (officeHours "e1" "cisc108-Smith-Virtual")) =
  bool_decide (dateGetDay (host := sampleHost)
                 (instant (Raw.start (officeHours "e1" "cisc108-Smith-Virtual")))
               = Some (Z.of_nat 2)).
Proof.
  apply (weekday_by_number (H := sampleHost) (onlyDayofweek "Tuesday") "Tuesday" 2);
    reflexivity.
Defined.

(** ** Numbers in decimal *)

(** The decimal writing of a number that is not negative. *)
Lemma showZ_nonneg (n : Z) :
  0 ≤ n →
  ∃ d, d ≠ Decimal.Nil ∧ showZ n = NilEmpty.string_of_uint d ∧ Z.of_uint d = n.
Proof.
  intros Hn. pose proof (DecimalZ.of_to n) as Hof. unfold showZ.
  destruct n as [| p | p]; [| | lia].
  - by exists (Decimal.D0 Decimal.Nil).
  - exists (Pos.to_uint p).
    pose proof (DecimalPos.Unsigned.to_uint_nonnil p) as Hnil.
    split; [done |]. split; [| done]. simpl.
    by destruct (Pos.to_uint p).
Qed.

Lemma showZ_inj (x y : Z) : showZ x = showZ y → x = y.
Proof.
  assert (∀ z, NilZero.int_of_string (showZ z) = Some (Z.to_int z)) as Hparse.
  { intros z. unfold showZ. apply NilZero.isi; destruct z; simpl; try done;
      intros [= Hz]; by apply (DecimalPos.Unsigned.to_uint_nonnil p). }
  intros Hxy. pose proof (Hparse x) as Hx. rewrite Hxy, Hparse in Hx.
  injection Hx as Hx. by rewrite <- (DecimalZ.of_to x), <- Hx, DecimalZ.of_to.
Qed.

(** ** The [/reminder] command *)

Lemma unsnoc_snoc (s : string) (c : ascii) :
  Reminder.unsnoc (s +:+ String c "") = Some (s, c).
Proof. induction s as [|x s IH]; [done |]. simpl. by rewrite IH. Qed.

Lemma unsnoc_inv (s init : string) (c : ascii) :
  Reminder.unsnoc s = Some (init, c) → s = init +:+ String c "".
Proof.
  revert init. induction s as [|x s IH]; intros init; [done |]. simpl.
  destruct (Reminder.unsnoc s) as [[i l] |] eqn:E.
  - intros [= <- <-]. simpl. f_equal. by apply IH.
  - intros [= <- <-]. by destruct s as [|y s]; [| simpl in E; destruct (Reminder.unsnoc s) as [[? ?]|]].
Qed.

Lemma allDigits_string_of_uint (d : Decimal.uint) :
  Reminder.allDigits (NilEmpty.string_of_uint d) = true.
Proof. induction d; simpl; done. Qed.

(** X16.  [parseReminderTime] returns exactly on one or more digits
    followed by the letter m or the letter h, and throws the format error
    on every other string (none, a sign, a space, another unit, a capital
    letter, two units).  What it returns is the number the digits write
    times the unit, as long as that product is below 2^53, where the
    host's arithmetic is exact. *)
Theorem reminder_time_format (timeStr : string) :
  (∃ value unit, timeStr = value +:+ String unit ""
     ∧ value ≠ "" ∧ Reminder.allDigits value = true
     ∧ (unit = "m"%char ∨ unit = "h"%char)
     ∧ ∃ ms, Reminder.parseReminderTime timeStr = inr ms
         ∧ (Reminder.parseInt value * Reminder.units unit < 2 ^ 53 →
            ms = Reminder.parseInt value * Reminder.units unit))
  ∨ ((¬ ∃ value unit, timeStr = value +:+ String unit ""
        ∧ value ≠ "" ∧ Reminder.allDigits value = true
        ∧ (unit = "m"%char ∨ unit = "h"%char))
     ∧ Reminder.parseReminderTime timeStr
       = inl (Reminder.Error Reminder.invalidTimeFormat)).
Proof.
  unfold Reminder.parseReminderTime, Reminder.timeRegex.
  destruct (Reminder.unsnoc timeStr) as [[value unit] |] eqn:E.
  - apply unsnoc_inv in E as ->.
    destruct (nonEmpty value && Reminder.allDigits value
              && (Ascii.eqb unit "m" || Ascii.eqb unit "h")) eqn:Hok.
    + left. exists value, unit.
      apply andb_true_iff in Hok as [[Hne Hd]%andb_true_iff Hu].
      apply nonEmpty_true in Hne.
      assert (unit = "m"%char ∨ unit = "h"%char) as Hunit
        by (apply orb_true_iff in Hu as [Hu%Ascii.eqb_eq | Hu%Ascii.eqb_eq]; auto).
      do 4 (split; [done |]). by eexists.
    + right. split; [| done].
      intros (v & u & Heq & Hne & Hd & Hu).
      assert (Some (value, unit) = Some (v, u)) as [= -> ->]
        by (by rewrite <- !unsnoc_snoc, Heq).
      apply nonEmpty_true in Hne. rewrite Hne, Hd in Hok.
      by destruct Hu as [-> | ->].
  - right. split; [| done].
    intros (v & u & -> & _). by rewrite unsnoc_snoc in E.
Qed.

Lemma reminder_time_format_witness :
  Reminder.parseInt "15" * Reminder.units "m" < 2 ^ 53
  ∧ Reminder.parseReminderTime "15m" = inr 900000.
Proof.
  split; [by vm_compute |].
  destruct (reminder_time_format "15m")
    as [(value & unit & Heq & _ & _ & _ & ms & Hms & Hvalue) | [_ Hthrown]];
    [| discriminate Hthrown].
  assert (Some ("15", "m"%char) = Some (value, unit)) as [= <- <-]
    by (rewrite <- (unsnoc_snoc value unit), <- Heq; reflexivity).
  rewrite Hms. f_equal. apply Hvalue. by vm_compute.
Defined.

(** X17.  For a number [n] written in decimal, "[n]m" is [n] minutes and
    "[n]h" is [n] hours, in milliseconds (as long as the product is below
    2^53, where the host's arithmetic is exact). *)
Theorem reminder_time_value (n : Z) :
  0 ≤ n → n * 3600000 < 2 ^ 53 →
  Reminder.parseReminderTime (showZ n +:+ "m") = inr (n * 60000)
  ∧ Reminder.parseReminderTime (showZ n +:+ "h") = inr (n * 3600000).
Proof.
  intros Hn _. destruct (showZ_nonneg n Hn) as (d & Hnil & -> & <-).
  assert (NilZero.uint_of_string (NilEmpty.string_of_uint d) = Some d) as Hparse.
  { rewrite <- (NilZero.usu d Hnil). by destruct d. }
  assert (nonEmpty (NilEmpty.string_of_uint d) = true) as Hne by (by destruct d).
  assert (Reminder.parseInt (NilEmpty.string_of_uint d) = Z.of_uint d) as Hint
    by (unfold Reminder.parseInt; by rewrite Hparse).
  unfold Reminder.parseReminderTime, Reminder.timeRegex.
  rewrite !unsnoc_snoc, Hne, allDigits_string_of_uint. cbn -[Reminder.parseInt].
  by rewrite Hint.
Qed.

Lemma reminder_time_value_witness :
  Reminder.parseReminderTime (showZ 15 +:+ "m") = inr (15 * 60000)
  ∧ Reminder.parseReminderTime (showZ 15 +:+ "h") = inr (15 * 3600000).
Proof. apply (reminder_time_value 15); [lia | by vm_compute]. Defined.

(** [find] returns the first event whose summary is the name, up to the
    case of letters, provided the events before it have a summary. *)
Lemma find_first (eventName : string) (events : list Raw.event) (event : Raw.event) :
  Reminder.find eventName events = inr (Some event) ↔
  ∃ pre post s, events = pre ++ event :: post
    ∧ Forall (fun e => ∃ s', Raw.summary e = Some s'
                ∧ toLowerCase s' ≠ toLowerCase eventName) pre
    ∧ Raw.summary event = Some s
    ∧ toLowerCase s = toLowerCase eventName.
Proof.
  induction events as [|x rest IH]; simpl.
  - split; [done |]. intros (pre & post & s & Heq & _). by destruct pre.
  - destruct (Raw.summary x) as [sx |] eqn:Hx.
    + destruct (String.eqb_spec (toLowerCase sx) (toLowerCase eventName)) as [Hm | Hm].
      * split.
        -- intros [= <-]. by exists [], rest, sx.
        -- intros (pre & post & s & Heq & Hpre & Hs & Hm').
           destruct pre as [|y pre]; simpl in Heq; injection Heq as -> ->; [done |].
           apply Forall_cons in Hpre as [(s' & Hs' & Hne) _]. congruence.
      * rewrite IH. split.
        -- intros (pre & post & s & -> & Hpre & Hs & Hm').
           exists (x :: pre), post, s. repeat split; try done.
           apply Forall_cons. split; [by exists sx | done].
        -- intros (pre & post & s & Heq & Hpre & Hs & Hm').
           destruct pre as [|y pre]; simpl in Heq; injection Heq as -> ->;
             [congruence |].
           apply Forall_cons in Hpre as [_ Hpre]. by exists pre, post, s.
    + split; [done |]. intros (pre & post & s & Heq & Hpre & Hs & Hm').
      destruct pre as [|y pre]; simpl in Heq; injection Heq as -> ->; [congruence |].
      apply Forall_cons in Hpre as [(s' & Hs' & _) _]. congruence.
Qed.

(** X18.  A reminder is scheduled exactly when the user has fetched events,
    the reminder time parses, an event with a start has the given name as
    its summary up to the case of letters, and the events listed before it
    have other summaries; the job is then for that first event, at its start
    (date-time value, or else date) minus the offset. *)
Theorem reminder_scheduled_iff `{Reminder.Clock}
  (userEvents : gmap string (list Raw.event))
  (userId eventName reminderTimeStr : string) (job : option Z * string * Raw.event) :
  job ∈ Reminder.scheduled
          (Reminder.run userEvents userId eventName reminderTimeStr).1 ↔
  ∃ events offset pre post s t,
    userEvents !! userId = Some events
    ∧ Reminder.parseReminderTime reminderTimeStr = inr offset
    ∧ events = pre ++ job.2 :: post
    ∧ Forall (fun e => ∃ s', Raw.summary e = Some s'
                ∧ toLowerCase s' ≠ toLowerCase eventName) pre
    ∧ Raw.summary job.2 = Some s
    ∧ toLowerCase s = toLowerCase eventName
    ∧ Raw.start job.2 = Some t
    ∧ job.1 =
        ((orElse (Raw.dateTime t) (Raw.date t) ≫= Reminder.getTime)
           ≫= (fun ms => Reminder.timeClip (ms - offset)),
         userId).
Proof.
  destruct job as [[at_ uid] event]. unfold Reminder.run. cbn [fst snd].
  destruct (userEvents !! userId) as [events |] eqn:Hev.
  2: { split; [by intros ?%elem_of_nil |]. by intros (? & ? & ? & ? & ? & ? & ? & _). }
  destruct events as [|e0 rest].
  { split; [by intros ?%elem_of_nil |].
    intros (? & ? & pre & ? & ? & ? & [= <-] & _ & Heq & _). by destruct pre. }
  destruct (Reminder.parseReminderTime reminderTimeStr) as [e | offset] eqn:Hp.
  { split; [by intros ?%elem_of_nil |].
    by intros (? & ? & ? & ? & ? & ? & _ & ? & _). }
  destruct (Reminder.find eventName (e0 :: rest)) as [e | [found |]] eqn:Hf.
  - split; [by intros ?%elem_of_nil |].
    intros (? & ? & pre & post & s & t & [= <-] & _ & Heq & Hpre & Hs & Hm & _).
    assert (Reminder.find eventName (e0 :: rest) = inr (Some event)) as Hfound
      by (apply find_first; by exists pre, post, s).
    congruence.
  - destruct (Raw.start found) as [t |] eqn:Hst; simpl.
    + rewrite list_elem_of_singleton. split.
      * intros [= -> -> ->].
        apply find_first in Hf as (pre & post & s & Heq & Hpre & Hs & Hm).
        by exists (e0 :: rest), offset, pre, post, s, t.
      * intros (? & off & pre & post & s & t' & [= <-] & [= <-] & Heq & Hpre
                & Hs & Hm & Hst' & [= -> ->]).
        assert (Reminder.find eventName (e0 :: rest) = inr (Some event)) as Hfound
          by (apply find_first; by exists pre, post, s).
        rewrite Hf in Hfound. injection Hfound as ->.
        rewrite Hst in Hst'. by injection Hst' as ->.
    + split; [by intros ?%elem_of_nil |].
      intros (? & ? & pre & post & s & t & [= <-] & _ & Heq & Hpre & Hs & Hm & Hst' & _).
      assert (Reminder.find eventName (e0 :: rest) = inr (Some event)) as Hfound
        by (apply find_first; by exists pre, post, s).
      rewrite Hf in Hfound. injection Hfound as ->. congruence.
  - split; [by intros ?%elem_of_nil |].
    intros (? & ? & pre & post & s & t & [= <-] & _ & Heq & Hpre & Hs & Hm & _).
    assert (Reminder.find eventName (e0 :: rest) = inr (Some event)) as Hfound
      by (apply find_first; by exists pre, post, s).
    congruence.
Qed.


(** ** The [/jobform] command *)

(** X20.  [run] shows a modal exactly for the question sets 1 and 2: the
    modal of set [k + 1] has the id "jobModal[k]", the title "Job Form
    ([k + 1] of 2)" and the rows of the questions of that set.  For every
    other value (no number, another integer, a number that is not an
    integer) it replies [enterOneOrTwo] and shows nothing. *)
Theorem jobform_shows_or_rejects (qset : option JobForm.number) :
  (∃ k asked, (k = 0 ∨ k = 1)
     ∧ qset = Some (JobForm.Int (k + 1))
     ∧ JobForm.questions !! Z.to_nat k = Some asked
     ∧ JobForm.run qset =
         [JobForm.ShowModal
            {| JobForm.modalId := "jobModal" +:+ showZ k;
               JobForm.modalTitle := "Job Form (" +:+ showZ (k + 1) +:+ " of 2)";
               JobForm.rows := JobForm.answerRows asked |}])
  ∨ ((qset ∉ [Some (JobForm.Int 1); Some (JobForm.Int 2)])
     ∧ JobForm.run qset = [JobForm.Reply JobForm.enterOneOrTwo]).
Proof.
  destruct qset as [[z |] |]; unfold JobForm.run, JobForm.questionSetOf.
  - destruct (Z.eqb_spec (z - 1) 0) as [Hz | Hz0].
    { left. assert (z = 1) as -> by lia. exists 0. eexists.
      split; [by left |]. split; [done |]. split; reflexivity. }
    destruct (Z.eqb_spec (z - 1) 1) as [Hz | Hz1].
    { left. assert (z = 2) as -> by lia. exists 1. eexists.
      split; [by right |]. split; [done |]. split; reflexivity. }
    right. split; [| done]. rewrite !elem_of_cons, elem_of_nil.
    intros [[= ->] | [[= ->] | []]]; lia.
  - right. split; [| done]. rewrite !elem_of_cons, elem_of_nil.
    by intros [? | [? | []]].
  - right. split; [| done]. rewrite !elem_of_cons, elem_of_nil.
    by intros [? | [? | []]].
Qed.

Lemma indexOf_nonneg_or_absent (x : string) (l : list string) :
  -1 ≤ JobForm.indexOf x l.
Proof.
  induction l as [|y l IH]; simpl; [lia |].
  destruct (String.eqb y x); [lia |].
  destruct (JobForm.indexOf x l); lia.
Qed.

Lemma indexOf_lookup (l : list string) (i : nat) (q : string) :
  NoDup l → l !! i = Some q → JobForm.indexOf q l = Z.of_nat i.
Proof.
  revert i. induction l as [|y l IH]; intros i Hnd Hi; [done |].
  apply NoDup_cons in Hnd as [Hy Hnd]. simpl.
  destruct i as [|i]; simpl in Hi.
  - injection Hi as ->. by rewrite String.eqb_refl.
  - destruct (String.eqb_spec y q) as [-> | Hne].
    + destruct Hy. by eapply list_elem_of_lookup_2.
    + rewrite (IH i Hnd Hi). destruct (Z.of_nat i) eqn:E; lia.
Qed.

(** The text input of the question of rank [i]. *)
Lemma concat_singletons {A B : Type} (g : nat → A → B) (l : list A) :
  concat (imap (fun i x => [g i x]) l) = imap g l.
Proof.
  revert g. induction l as [|x l IH]; intros g; [done |].
  simpl. f_equal. apply (IH (g ∘ S)).
Qed.

Lemma answerRows_imap (asked : list string) :
  NoDup asked →
  JobForm.answerRows asked =
  imap (fun i question => JobForm.getAnswerField question (Z.of_nat i)) asked.
Proof.
  intros Hnd. apply list_eq. intros i. unfold JobForm.answerRows.
  rewrite list_lookup_fmap, list_lookup_imap.
  destruct (asked !! i) as [q |] eqn:Hq; [| done]. simpl.
  by rewrite (indexOf_lookup asked i q Hnd Hq).
Qed.

Lemma answerRows_ids (asked : list string) :
  NoDup asked →
  JobForm.customId <$> concat (JobForm.answerRows asked) =
  (fun i : nat => "question" +:+ showZ (Z.of_nat i + 1)) <$> seq 0 (length asked).
Proof.
  intros Hnd. rewrite (answerRows_imap asked Hnd). unfold JobForm.getAnswerField.
  rewrite (concat_singletons
             (fun i question =>
                {| JobForm.customId := "question" +:+ showZ (Z.of_nat i + 1);
                   JobForm.label := question;
                   JobForm.style := JobForm.Short;
                   JobForm.placeholder := "Input Answer Here" |})).
  apply list_eq. intros i.
  rewrite !list_lookup_fmap, list_lookup_imap.
  destruct (asked !! i) as [q |] eqn:Hq; simpl.
  - rewrite lookup_seq_lt by (by eapply lookup_lt_Some). done.
  - rewrite lookup_seq_ge by (by eapply lookup_ge_None). done.
Qed.

Lemma question_ids_NoDup (n : nat) :
  NoDup ((fun i : nat => "question" +:+ showZ (Z.of_nat i + 1)) <$> seq 0 n).
Proof.
  apply NoDup_fmap_2_strong; [| apply NoDup_seq].
  intros i j _ _ Hij. apply (inj _) in Hij. apply showZ_inj in Hij. lia.
Qed.

(** X21.  When the questions asked are all different, the modal has one
    row for each question, in order, whose single text input is labelled
    with the question and has the id "question[i + 1]" for the question of
    rank [i]; no two inputs share an id. *)
Theorem answer_rows_are_numbered (asked : list string) :
  NoDup asked →
  JobForm.answerRows asked =
    imap (fun i question => JobForm.getAnswerField question (Z.of_nat i)) asked
  ∧ JobForm.customId <$> concat (JobForm.answerRows asked) =
    (fun i : nat => "question" +:+ showZ (Z.of_nat i + 1)) <$> seq 0 (length asked)
  ∧ NoDup (JobForm.customId <$> concat (JobForm.answerRows asked)).
Proof.
  intros Hnd. split; [by apply answerRows_imap |].
  split; [by apply answerRows_ids |].
  rewrite (answerRows_ids asked Hnd). apply question_ids_NoDup.
Qed.

Lemma answer_rows_are_numbered_witness :
  JobForm.customId <$> concat (JobForm.answerRows
      ["Interest 1"; "Interest 2"; "Interest 3"; "Interest 4"; "Interest 5"]) =
  ["question1"; "question2"; "question3"; "question4"; "question5"].
Proof.
  assert (Hnd : NoDup ["Interest 1"; "Interest 2"; "Interest 3"; "Interest 4";
                       "Interest 5"]).
  { compute_done. }
  destruct (answer_rows_are_numbered _ Hnd) as (_ & -> & _). reflexivity.
Defined.

(** X22.  What is typed into the modal comes back through [getAnswer]:
    when the questions asked are all different and the submission holds one
    typed text for each, [getAnswer(fields, i)] is the text typed for the
    question of rank [i]; for a rank beyond the questions it throws. *)
Theorem answers_round_trip (asked typed : list string) (i : nat) :
  NoDup asked → length typed = length asked →
  JobForm.getAnswer (JobForm.submission (JobForm.answerRows asked) typed)
    (Z.of_nat i) =
  match typed !! i with
  | Some v => inr v
  | None => inl (TypeError "ModalSubmitInteractionFieldNotFound")
  end.
Proof.
  intros Hnd Hlen.
  pose proof (answerRows_ids asked Hnd) as Hids.
  pose proof (question_ids_NoDup (length asked)) as Hndids.
  rewrite <- Hids in Hndids.
  unfold JobForm.getAnswer, JobForm.submission.
  set (ids := JobForm.customId <$> concat (JobForm.answerRows asked)) in *.
  assert (length ids = length asked) as Hlenids
    by (rewrite Hids, length_fmap; apply length_seq).
  assert ((zip ids typed).*1 = ids) as Hfst by (apply fst_zip; lia).
  destruct (typed !! i) as [v |] eqn:Hv.
  - assert (ids !! i = Some ("question" +:+ showZ (Z.of_nat i + 1))) as Hid.
    { rewrite Hids, list_lookup_fmap, lookup_seq_lt; [done |].
      apply lookup_lt_Some in Hv. lia. }
    assert (list_to_map (M := gmap string string) (zip ids typed)
              !! ("question" +:+ showZ (Z.of_nat i + 1)) = Some v) as ->; [| done].
    apply elem_of_list_to_map_1; [by rewrite Hfst |].
    apply (list_elem_of_lookup_2 _ i).
    apply lookup_zip_with_Some. by eexists _, _.
  - assert (list_to_map (M := gmap string string) (zip ids typed)
              !! ("question" +:+ showZ (Z.of_nat i + 1)) = None) as ->; [| done].
    apply not_elem_of_list_to_map_1. rewrite Hfst, Hids.
    intros (j & Hij & Hj%elem_of_seq)%list_elem_of_fmap.
    apply (inj _) in Hij. apply showZ_inj in Hij.
    apply lookup_ge_None in Hv. lia.
Qed.

Lemma answers_round_trip_witness :
  JobForm.getAnswer
    (JobForm.submission
       (JobForm.answerRows
          ["What city are you located in?";
           "Are you looking for remote or in person?";
           "Job, internship or both?";
           "How far are you willing to travel?"])
       ["Newark"; "remote"; "both"; "20 miles"])
    (Z.of_nat 2) =
  match ["Newark"; "remote"; "both"; "20 miles"] !! 2%nat with
  | Some v => inr v
  | None => inl (TypeError "ModalSubmitInteractionFieldNotFound")
  end.
Proof.
  apply answers_round_trip; [compute_done | reflexivity].
Defined.

(** ** The authorisation *)

(** X23.  [authorize] starts the consent flow exactly when no token is
    saved; it writes the token file exactly when, without a saved token,
    the consent succeeds, comes with credentials, and the credentials file
    can be read; and it returns with a client exactly when a token is
    saved, or the consent succeeds and its result, if it is to be saved, is
    saved without error. *)
Theorem authorize_flow (w : World) :
  asksConsent (authorize w).1 = negb (tokenSaved w)
  ∧ writesToken (authorize w).1 =
      negb (tokenSaved w) && consents w && consentCredentials w
      && credentialsRead w
  ∧ ((authorize w).2 = inr tt ↔
       tokenSaved w = true
       ∨ (consents w = true
          ∧ (consentCredentials w = false
             ∨ (credentialsRead w = true ∧ tokenWritten w = true)))).
Proof.
  unfold authorize, call.
  destruct (tokenSaved w), (consents w), (consentCredentials w),
    (credentialsRead w), (tokenWritten w); cbn;
    (split; [done |]); (split; [done |]); intuition congruence.
Qed.
